(** * SimpleGetToken: the variable-rebinding plugin, verified

    A shallow embedding of the plugin's execution engine:
    - [JsMap]: insertion-ordered string-keyed maps (JS [Map] and plain
      objects used as records);
    - [RequestQueue]: the bounded-concurrency FIFO scheduler;
    - [Tree]: the scene hierarchy and the breadth-first flattener;
    - [Pipeline]: [withRetry], the import cache and the per-node rebinding
      pipeline, over an abstract host (the Figma plugin API).

    JavaScript numbers that hold counters, limits and delays are modelled as
    [Z]; strings as [string]; [null]/[undefined] as [None]. *)

From Stdlib Require Import String Ascii.
From Stdlib Require Import List ZArith Lia Bool Permutation Arith.
From Equations Require Import Equations.
Import ListNotations.

Set Implicit Arguments.
Set Warnings "-register-all".

(* ===================================================================== *)
(** ** Insertion-ordered maps with string keys                            *)
(* ===================================================================== *)

(** A JS [Map<string, V>] (and an object used as [Record<string, V>] whose
    keys are not integer-like) iterates in insertion order; [set] on a key
    already present keeps its place. *)
Module JsMap.
Section WithValues.
Variable V : Type.

Definition t := list (string * V).

Fixpoint get (m : t) (k : string) : option V :=
  match m with
  | [] => None
  | (k', v) :: m' => if String.eqb k' k then Some v else get m' k
  end.

Definition has (m : t) (k : string) : bool :=
  match get m k with Some _ => true | None => false end.

Fixpoint set (m : t) (k : string) (v : V) : t :=
  match m with
  | [] => [(k, v)]
  | (k', v') :: m' =>
      if String.eqb k' k then (k', v) :: m' else (k', v') :: set m' k v
  end.

Definition delete (m : t) (k : string) : t :=
  filter (fun kv => negb (String.eqb (fst kv) k)) m.

Definition keys (m : t) : list string := map fst m.
Definition values (m : t) : list V := map snd m.
End WithValues.
End JsMap.

(* ===================================================================== *)
(** ** The bounded-concurrency scheduler (class RequestQueue)             *)
(* ===================================================================== *)

Module RequestQueue.

(** A submitted closure [fn] is identified by its submission index. *)
Abbreviation TaskId := nat (only parsing).

(** How the promise returned by [fn()] settles. *)
Inductive Outcome := Succeeded | Failed.

(** [queue], [activeCount] and [maxConcurrency] are the fields of the
    class.  [inFlight], [settled] and [submitted] are ghost fields: the
    promises [fn()] that were started and have not settled yet, the settled
    ones with their outcome, and the number of [enqueue] calls so far. *)
Record State := mkState {
  maxConcurrency : Z;
  queue : list TaskId;
  activeCount : Z;
  inFlight : list TaskId;
  settled : list (TaskId * Outcome);
  submitted : nat
}.

(** [new RequestQueue(maxConcurrency)] *)
Definition create (maxConcurrency : Z) : State :=
  mkState maxConcurrency [] 0 [] [] 0.

(** [next()]: return when the limit is reached or nothing waits; otherwise
    [shift] the head, [activeCount++] and call [fn()]. *)
Definition next (s : State) : State :=
  if (maxConcurrency s <=? activeCount s)%Z || (length (queue s) =? 0)
  then s
  else match queue s with
       | [] => s
       | fn :: rest =>
           mkState (maxConcurrency s) rest (activeCount s + 1)
                   (inFlight s ++ [fn]) (settled s) (submitted s)
       end.

(** [enqueue(fn)]: [queue.push(fn); next()]. *)
Definition enqueue (s : State) : State :=
  next (mkState (maxConcurrency s) (queue s ++ [submitted s]) (activeCount s)
                (inFlight s) (settled s) (S (submitted s))).

(** The callback given to [finally]: [activeCount--; next()].  It runs for
    a fulfilled and for a rejected promise alike; the promise that [finally]
    returns is dropped, so no caller of the queue receives the failure. *)
Definition onFinally (t : TaskId) (o : Outcome) (s : State) : State :=
  next (mkState (maxConcurrency s) (queue s) (activeCount s - 1)
                (remove Nat.eq_dec t (inFlight s)) ((t, o) :: settled s)
                (submitted s)).

(** The queue events.  The plugin runs on one thread, so every event is
    atomic; an [enqueue] made by a task body while [next] is starting it
    happens after [activeCount++] and is the [Enqueue] event that follows. *)
Inductive Event :=
| Enqueue
| Settle (t : TaskId) (o : Outcome).

(** A promise settles only if it was started and has not settled yet. *)
Definition step (e : Event) (s : State) : option State :=
  match e with
  | Enqueue => Some (enqueue s)
  | Settle t o =>
      if existsb (Nat.eqb t) (inFlight s) then Some (onFinally t o s)
      else None
  end.

Fixpoint run (es : list Event) (s : State) : option State :=
  match es with
  | [] => Some s
  | e :: es' => match step e s with
                | Some s' => run es' s'
                | None => None
                end
  end.

Inductive reachable (C : Z) : State -> Prop :=
| reach_create : reachable C (create C)
| reach_step e s s' : reachable C s -> step e s = Some s' -> reachable C s'.

(** The loop condition of [waitUntilEmpty]. *)
Definition busy (s : State) : bool :=
  (0 <? activeCount s)%Z || (0 <? length (queue s)).

(** [waitUntilEmpty()] evaluates its loop condition when it is called and
    again after every 100 ms timer; [polls] lists the queue states at those
    instants.  The result is the state at which the loop exits, [None]
    while it is still waiting. *)
Fixpoint waitUntilEmpty (polls : list State) : option State :=
  match polls with
  | [] => None
  | s :: later => if busy s then waitUntilEmpty later else Some s
  end.

(** A task has reached a terminal state once its promise has settled. *)
Definition terminal (s : State) (t : TaskId) : Prop :=
  exists o, In (t, o) (settled s).


(** What holds between two queue events: the counter is the number of
    promises in flight, either nothing waits or the limit is reached, the
    limit is respected, and every submitted task is pending, in flight or
    settled, exactly once. *)
Record Inv (C : Z) (s : State) : Prop := mkInv {
  inv_limit : maxConcurrency s = C;
  inv_count : activeCount s = Z.of_nat (length (inFlight s));
  inv_full : queue s = [] \/ (C <= activeCount s)%Z;
  inv_bound : (0 <= C)%Z -> (activeCount s <= C)%Z;
  inv_tasks : Permutation (queue s ++ inFlight s ++ map fst (settled s))
                          (seq 0 (submitted s))
}.

End RequestQueue.

(* ===================================================================== *)
(** ** The data model                                                     *)
(* ===================================================================== *)

(** [Variable]: a variable materialized in the working file. *)
Record Var := mkVar {
  var_id : string;
  var_name : string;
  variableCollectionId : string
}.

(** [LibraryVariable]: a descriptor of the source catalog. *)
Record LibraryVariable := mkLibraryVariable {
  lib_name : string;
  lib_key : string
}.

Record VariableCollection := mkVariableCollection { coll_id : string }.

(** [Paint]: its [type], [boundVariables?.color?.id], and every other field
    in serialized form. *)
Record Paint := mkPaint {
  paint_type : string;
  boundColorId : option string;
  paint_data : string
}.

(** The ancestors of a node, as reached through [parent]. *)
Inductive BaseNode := mkBaseNode {
  base_type : string;
  base_parent : option BaseNode
}.

(** [SceneNode].  [fills] and [strokes] are [None] when the property is
    missing or is not an array; [explicitVariableModes] and [children] are
    [None] when the node does not have the property. *)
Inductive SceneNode := mkSceneNode {
  node_name : string;
  node_type : string;
  parent : option BaseNode;
  fills : option (list Paint);
  strokes : option (list Paint);
  explicitVariableModes : option (JsMap.t string);
  children : option (list SceneNode)
}.

Inductive PaintType := Fills | Strokes.

(** [(node as any)[paintType]] *)
Definition getPaints (node : SceneNode) (paintType : PaintType) :=
  match paintType with Fills => fills node | Strokes => strokes node end.

(** [(node as any)[paintType] = updatedPaints] *)
Definition setPaints (node : SceneNode) (paintType : PaintType)
    (updatedPaints : list Paint) : SceneNode :=
  match paintType with
  | Fills => mkSceneNode (node_name node) (node_type node) (parent node)
               (Some updatedPaints) (strokes node)
               (explicitVariableModes node) (children node)
  | Strokes => mkSceneNode (node_name node) (node_type node) (parent node)
               (fills node) (Some updatedPaints)
               (explicitVariableModes node) (children node)
  end.

Definition setModes (node : SceneNode) (modes : option (JsMap.t string))
    : SceneNode :=
  mkSceneNode (node_name node) (node_type node) (parent node)
    (fills node) (strokes node) modes (children node).

(* ===================================================================== *)
(** ** The tree: breadth-first flattening and the ancestor walk           *)
(* ===================================================================== *)

Module Tree.

(** ['children' in node ? node.children : nothing] *)
Definition childrenOf (node : SceneNode) : list SceneNode :=
  match children node with Some cs => cs | None => [] end.

Fixpoint nodeSize (node : SceneNode) : nat :=
  match node with
  | mkSceneNode _ _ _ _ _ _ cs =>
      S (match cs with
         | None => 0
         | Some l => (fix sum (l : list SceneNode) : nat :=
                        match l with
                        | [] => 0
                        | c :: l' => nodeSize c + sum l'
                        end) l
         end)
  end.

Definition forestSize (forest : list SceneNode) : nat :=
  list_sum (map nodeSize forest).

Lemma forestSize_app (f g : list SceneNode) :
  forestSize (f ++ g) = forestSize f + forestSize g.
Proof.
  unfold forestSize. rewrite map_app, list_sum_app. reflexivity.
Qed.

Lemma nodeSize_children (node : SceneNode) :
  nodeSize node = S (forestSize (childrenOf node)).
Proof.
  destruct node as [n ty p f s m cs]. unfold childrenOf, forestSize. simpl.
  destruct cs as [l|]; [|reflexivity].
  f_equal. induction l as [|c l IH]; simpl; [reflexivity | now rewrite IH].
Qed.

(** The [while (queue.length > 0)] loop of [getAllNodesInSelection], on
    its two local arrays. *)
Equations? bfsLoop (queue result : list SceneNode) : list SceneNode
  by wf (forestSize queue) lt :=
  bfsLoop [] result := result;
  bfsLoop (node :: rest) result :=
    bfsLoop (rest ++ childrenOf node) (result ++ [node]).
Proof.
  rewrite forestSize_app. unfold forestSize at 3. simpl.
  rewrite nodeSize_children. fold (forestSize rest). lia.
Qed.

Definition getAllNodesInSelection (selection : list SceneNode)
  : list SceneNode :=
  bfsLoop selection [].

(** [isNestedInInstance]: the loop over [current = current.parent]. *)
Fixpoint hasInstanceFrom (current : BaseNode) : bool :=
  if String.eqb (base_type current) "INSTANCE" then true
  else match base_parent current with
       | Some up => hasInstanceFrom up
       | None => false
       end.

Definition isNestedInInstance (node : SceneNode) : bool :=
  match parent node with
  | Some current => hasInstanceFrom current
  | None => false
  end.

(** The nodes at depth [d] of a forest: the roots at depth 0, and at depth
    [d + 1] the children of the nodes at depth [d], parent by parent in
    the order of the parents, and in sibling order under each parent. *)
Fixpoint level (d : nat) (forest : list SceneNode) : list SceneNode :=
  match d with
  | 0 => forest
  | S d' => flat_map childrenOf (level d' forest)
  end.

(** The selection of the example: [root] with children [A] and [B], [A]
    with children [A1] and [A2]. *)
Definition exampleLeaf (name : string) : SceneNode :=
  mkSceneNode name "RECTANGLE" None None None None None.
Definition exampleFrame (name : string) (cs : list SceneNode) : SceneNode :=
  mkSceneNode name "FRAME" None None None None (Some cs).
Definition exampleSelection : list SceneNode :=
  [exampleFrame "root"
     [exampleFrame "A" [exampleLeaf "A1"; exampleLeaf "A2"];
      exampleLeaf "B"]].

Fixpoint nodeHeight (node : SceneNode) : nat :=
  match node with
  | mkSceneNode _ _ _ _ _ _ cs =>
      S (match cs with
         | None => 0
         | Some l => (fix mx (l : list SceneNode) : nat :=
                        match l with
                        | [] => 0
                        | c :: l' => Nat.max (nodeHeight c) (mx l')
                        end) l
         end)
  end.

(** Number of non-empty levels of a forest. *)
Definition forestHeight (forest : list SceneNode) : nat :=
  fold_right (fun n h => Nat.max (nodeHeight n) h) 0 forest.

End Tree.

(* ===================================================================== *)
(** ** Failures, the host interface and the run state                     *)
(* ===================================================================== *)

(** A thrown value: [error.status] when it is a number, and the rest. *)
Record Error := mkError { status : option Z; message : string }.

Inductive Result (T : Type) :=
| Ok (v : T)      (* the promise is fulfilled with [v] *)
| Err (e : Error) (* the promise is rejected with [e] *).
Arguments Ok {T} v.
Arguments Err {T} e.

(** The part of the plugin API that the pipeline awaits.  Each call reads
    and changes the state of the host and settles with a value or with a
    failure (rate-limited or any other). *)
Class Figma := {
  World : Type;
  getVariableByIdAsync : string -> World -> Result (option Var) * World;
  importVariableByKeyAsync : string -> World -> Result Var * World;
  getVariableCollectionByIdAsync :
    string -> World -> Result (option VariableCollection) * World
}.

Inductive Api :=
| GetVariableById (id : string)
| ImportVariableByKey (key : string)
| GetVariableCollectionById (id : string)
| OtherApi (name : string).

Inductive Site :=
| ImportSite (key : string)
| CollectionSite (collId : string)
| WebCollectionSite
| NodeSite.

(** What a run does that can be observed from outside, in order. *)
Inductive Effect :=
| Attempt (a : Api)                  (* [fn()] called by [withRetry] *)
| ConsoleWarn (delayMs : Z)          (* the 429 warning *)
| Wait (ms : Z)                      (* [await wait(ms)] *)
| ConsoleError (site : Site) (e : Error)
| ClearMode (collId : string)        (* clearExplicitVariableModeForCollection *)
| SetMode (collId modeId : string)   (* setExplicitVariableModeForCollection *).

(** The calls of the operation that [withRetry] made, and its delays. *)
Definition attempts (es : list Effect) : nat :=
  length (filter (fun e => match e with Attempt _ => true | _ => false end) es).

Definition waits (es : list Effect) : list Z :=
  flat_map (fun e => match e with Wait ms => [ms] | _ => [] end) es.

(** The calls that change the explicit modes of a node. *)
Definition modeCalls (es : list Effect) : list Effect :=
  filter (fun e => match e with
                   | ClearMode _ | SetMode _ _ => true
                   | _ => false
                   end) es.

(** The effects of [k] retries after 429 failures, the first delay being
    [d]: [k + 1] attempts with the delays [d, 2d, 4d, ...] in between. *)
Fixpoint backoff (a : Api) (k : nat) (d : Z) : list Effect :=
  match k with
  | 0 => [Attempt a]
  | S k' => Attempt a :: ConsoleWarn d :: Wait d :: backoff a k' (d * 2)
  end.

(** [d, 2d, 4d, ...], [k] delays. *)
Fixpoint doubling (k : nat) (d : Z) : list Z :=
  match k with
  | 0 => []
  | S k' => d :: doubling k' (d * 2)
  end.

(** The calls of [importVariableByKeyAsync(key)] among the effects. *)
Definition importAttempts (key : string) (es : list Effect) : nat :=
  length (filter (fun e => match e with
                           | Attempt (ImportVariableByKey k) => String.eqb k key
                           | _ => false
                           end) es).

Section Pipeline.
Context {figma : Figma}.

(** The closure given to [withRetry]: one call of the host. *)
Record Remote (T : Type) := mkRemote {
  api : Api;
  invoke : World -> Result T * World
}.

(** The run-scoped state shared by all tasks. *)
Record Run := mkRun {
  host : World;
  importedVariablesCache : JsMap.t Var;
  effects : list Effect
}.

Definition M (T : Type) := Run -> Result T * Run.

Definition emit (e : Effect) (r : Run) : Run :=
  mkRun (host r) (importedVariablesCache r) (effects r ++ [e]).

(** [await fn()] *)
Definition call {T} (fn : Remote T) : M T := fun r =>
  let (res, w) := invoke fn (host r) in
  (res, mkRun w (importedVariablesCache r) (effects r ++ [Attempt (api fn)])).

(** [error.status === 429] *)
Definition is429 (e : Error) : bool :=
  match status e with
  | Some n => (n =? 429)%Z
  | None => false
  end.

(** [withRetry(fn, retries, delayMs)] *)
Equations? withRetry {T} (fn : Remote T) (retries delayMs : Z) (r : Run)
  : Result T * Run by wf (Z.to_nat retries) lt :=
  withRetry fn retries delayMs r with call fn r => {
    | (Ok v, r1) => (Ok v, r1);
    | (Err e, r1) with Z_lt_dec 0 retries => {
        | left _ with is429 e => {
            | true =>
                withRetry fn (retries - 1) (delayMs * 2)
                  (emit (Wait delayMs) (emit (ConsoleWarn delayMs) r1));
            | false => (Err e, r1) };
        | right _ => (Err e, r1) } }.
Proof. lia. Qed.

(** The default arguments [retries = 3, delayMs = 1000]. *)
Definition withRetryDefault {T} (fn : Remote T) : M T :=
  withRetry fn 3 1000.

(** An operation that is rate-limited on every call. *)
Definition alwaysRateLimited {T} (fn : Remote T) : Prop :=
  forall w, exists e w', invoke fn w = (Err e, w') /\ is429 e = true.

Definition getVariableById (id : string) : Remote (option Var) :=
  mkRemote (GetVariableById id) (getVariableByIdAsync id).
Definition importVariableByKey (key : string) : Remote Var :=
  mkRemote (ImportVariableByKey key) (importVariableByKeyAsync key).
Definition getVariableCollectionById (id : string)
  : Remote (option VariableCollection) :=
  mkRemote (GetVariableCollectionById id) (getVariableCollectionByIdAsync id).

(** [Promise.all(ps)], with the closures run one after the other in array
    order.  Every closure runs to its end even when another one rejects;
    the result is rejected with the first failure in array order. *)
Fixpoint promiseAll {A} (ps : list (M A)) : M (list A) := fun r =>
  match ps with
  | [] => (Ok [], r)
  | p :: rest =>
      let (x, r1) := p r in
      let (xs, r2) := promiseAll rest r1 in
      (match x, xs with
       | Ok a, Ok l => Ok (a :: l)
       | Err e, _ => Err e
       | Ok _, Err e => Err e
       end, r2)
  end.

(** *** The import cache *)

(** The code of [getImportedVariable] after its [await]. *)
Definition afterImport (libVar : LibraryVariable) (res : Result Var)
  : M (option Var) := fun r =>
  match res with
  | Ok imported =>
      (Ok (Some imported),
       mkRun (host r)
             (JsMap.set (importedVariablesCache r) (lib_key libVar) imported)
             (effects r))
  | Err e => (Ok None, emit (ConsoleError (ImportSite (lib_key libVar)) e) r)
  end.

Definition getImportedVariable (libVar : LibraryVariable) : M (option Var) :=
  fun r =>
  if JsMap.has (importedVariablesCache r) (lib_key libVar)
  then (Ok (JsMap.get (importedVariablesCache r) (lib_key libVar)), r)
  else let (res, r1) := withRetryDefault (importVariableByKey (lib_key libVar)) r
       in afterImport libVar res r1.

(** Several calls of [getImportedVariable] in flight at once.  A call is
    suspended at its [await]: the cache is read before the suspension and
    written after it.  [Fresh]: not started; [Awaiting libVar res]: the
    import was issued and has settled with [res], the code after the
    [await] has not run yet; [Returned v]: the call has returned [v]. *)
Inductive Request :=
| Fresh (libVar : LibraryVariable)
| Awaiting (libVar : LibraryVariable) (res : Result Var)
| Returned (v : option Var).

Definition importStart (libVar : LibraryVariable) (r : Run) : Request * Run :=
  if JsMap.has (importedVariablesCache r) (lib_key libVar)
  then (Returned (JsMap.get (importedVariablesCache r) (lib_key libVar)), r)
  else let (res, r1) := withRetryDefault (importVariableByKey (lib_key libVar)) r
       in (Awaiting libVar res, r1).

Definition importResume (libVar : LibraryVariable) (res : Result Var)
    (r : Run) : Request * Run :=
  match afterImport libVar res r with
  | (Ok v, r1) => (Returned v, r1)
  | (Err _, r1) => (Returned None, r1)
  end.

Record Pool := mkPool { shared : Run; requests : list Request }.

Fixpoint replace {A} (i : nat) (x : A) (l : list A) : list A :=
  match l, i with
  | [], _ => []
  | _ :: l', 0 => x :: l'
  | y :: l', S i' => y :: replace i' x l'
  end.

(** One scheduling step: request [i] runs until it suspends or returns. *)
Definition resume (i : nat) (p : Pool) : Pool :=
  match nth_error (requests p) i with
  | Some (Fresh libVar) =>
      let (q, r1) := importStart libVar (shared p) in
      mkPool r1 (replace i q (requests p))
  | Some (Awaiting libVar res) =>
      let (q, r1) := importResume libVar res (shared p) in
      mkPool r1 (replace i q (requests p))
  | _ => p
  end.

Definition schedule (order : list nat) (p : Pool) : Pool :=
  fold_left (fun p i => resume i p) order p.

(** Number of calls of [importVariableByKeyAsync(key)] made so far. *)
Definition importCalls (key : string) (r : Run) : nat :=
  importAttempts key (effects r).

Definition isFresh (q : Request) : bool :=
  match q with Fresh _ => true | _ => false end.

(** The requests that have not started yet. *)
Definition freshCount (qs : list Request) : nat :=
  length (filter isFresh qs).

(** Every request of the pool is for [libVar], and a request that has
    returned a variable has left the key cached. *)
Definition settledIn (libVar : LibraryVariable) (r : Run) (q : Request)
  : Prop :=
  match q with
  | Fresh lv => lv = libVar
  | Awaiting lv _ => lv = libVar
  | Returned (Some _) =>
      JsMap.has (importedVariablesCache r) (lib_key libVar) = true
  | Returned None => True
  end.

(** *** Paint rebinding *)

(** Truthiness of a [string | null | undefined]. *)
Definition truthy (s : option string) : bool :=
  match s with
  | Some x => negb (String.eqb x "")
  | None => false
  end.

(** [variable.variableCollectionId === webCollectionId] *)
Definition isFromWebCollection (variable : Var)
    (webCollectionId : option string) : bool :=
  match webCollectionId with
  | Some c => String.eqb (variableCollectionId variable) c
  | None => false
  end.

(** [figma.variables.setBoundVariableForPaint(paint, 'color', imported)]:
    a copy of the paint whose color is bound to [imported]. *)
Definition setBoundVariableForPaint (paint : Paint) (imported : Var) : Paint :=
  mkPaint (paint_type paint) (Some (var_id imported)) (paint_data paint).

(** The closure mapped over the paints by [processPaints]. *)
Definition processPaint (webVariablesMap : JsMap.t LibraryVariable)
    (webCollectionId : option string) (paint : Paint) : M Paint := fun r =>
  if negb (String.eqb (paint_type paint) "SOLID")
     || negb (truthy (boundColorId paint))
  then (Ok paint, r)
  else
    match boundColorId paint with
    | None => (Ok paint, r)
    | Some variableId =>
        match withRetryDefault (getVariableById variableId) r with
        | (Err e, r1) => (Err e, r1)
        | (Ok None, r1) => (Ok paint, r1)
        | (Ok (Some variable), r1) =>
            if truthy webCollectionId
               && isFromWebCollection variable webCollectionId
            then (Ok paint, r1)
            else
              match JsMap.get webVariablesMap (var_name variable) with
              | None => (Ok paint, r1)
              | Some libVar =>
                  match getImportedVariable libVar r1 with
                  | (Err e, r2) => (Err e, r2)
                  | (Ok None, r2) => (Ok paint, r2)
                  | (Ok (Some imported), r2) =>
                      (Ok (setBoundVariableForPaint paint imported), r2)
                  end
              end
        end
    end.

Definition Paint_eq_dec (p q : Paint) : {p = q} + {p <> q}.
Proof.
  decide equality; try apply string_dec.
  decide equality; apply string_dec.
Defined.

(** [JSON.stringify(paints) !== JSON.stringify(updatedPaints)] *)
Definition paintsChanged (paints updatedPaints : list Paint) : bool :=
  if list_eq_dec Paint_eq_dec paints updatedPaints then false else true.

(** [processPaints]: the outcome, the node after the call and the run. *)
Definition processPaints (node : SceneNode) (paintType : PaintType)
    (webVariablesMap : JsMap.t LibraryVariable)
    (webCollectionId : option string) (r : Run)
  : Result unit * SceneNode * Run :=
  match getPaints node paintType with
  | None => (Ok tt, node, r)
  | Some paints =>
      match promiseAll
              (map (processPaint webVariablesMap webCollectionId) paints) r
      with
      | (Err e, r1) => (Err e, node, r1)
      | (Ok updatedPaints, r1) =>
          if paintsChanged paints updatedPaints
          then (Ok tt, setPaints node paintType updatedPaints, r1)
          else (Ok tt, node, r1)
      end
  end.

(** The variable bound to a solid paint resolves, whenever it is looked
    up, to a variable of the collection [collectionId]. *)
Definition resolvesInto (collectionId : string) (paint : Paint) : Prop :=
  forall variableId r,
    paint_type paint = "SOLID"%string ->
    boundColorId paint = Some variableId -> variableId <> ""%string ->
    exists variable r1,
      withRetryDefault (getVariableById variableId) r
      = (Ok (Some variable), r1) /\
      variableCollectionId variable = collectionId.

(** *** Mode reassignment *)

(** The host keeps one explicit mode per collection of a node: clearing
    removes the entry of the collection, setting writes it. *)
Definition clearExplicitVariableModeForCollection (node : SceneNode)
    (collection : VariableCollection) (r : Run) : SceneNode * Run :=
  (setModes node
     (option_map (fun m => JsMap.delete m (coll_id collection))
                 (explicitVariableModes node)),
   emit (ClearMode (coll_id collection)) r).

Definition setExplicitVariableModeForCollection (node : SceneNode)
    (collection : VariableCollection) (modeId : string) (r : Run)
  : SceneNode * Run :=
  (setModes node
     (Some (JsMap.set (match explicitVariableModes node with
                       | Some m => m
                       | None => []
                       end) (coll_id collection) modeId)),
   emit (SetMode (coll_id collection) modeId) r).

(** [try { return await withRetry(...) } catch { console.error; return null }] *)
Definition fetchCollection (collId : string) : M (option VariableCollection) :=
  fun r =>
  match withRetryDefault (getVariableCollectionById collId) r with
  | (Ok coll, r1) => (Ok coll, r1)
  | (Err e, r1) => (Ok None, emit (ConsoleError (CollectionSite collId) e) r1)
  end.

(** [collections.forEach(coll => { if (coll) clear(coll) })] *)
Definition clearAll (collections : list (option VariableCollection))
    (node : SceneNode) (r : Run) : SceneNode * Run :=
  fold_left (fun nr coll =>
               match coll with
               | Some c => clearExplicitVariableModeForCollection (fst nr) c (snd nr)
               | None => nr
               end) collections (node, r).

(** [Object.values(modes).forEach(modeId => set(webCollection, modeId))] *)
Definition setAll (webCollection : VariableCollection) (modeIds : list string)
    (node : SceneNode) (r : Run) : SceneNode * Run :=
  fold_left (fun nr modeId =>
               setExplicitVariableModeForCollection (fst nr) webCollection
                                                    modeId (snd nr))
            modeIds (node, r).

Definition reassignVariableModes (node : SceneNode)
    (webCollection : option VariableCollection) (r : Run)
  : Result unit * SceneNode * Run :=
  match explicitVariableModes node with
  | None => (Ok tt, node, r)
  | Some modes =>
      if List.length (JsMap.keys modes) =? 0 then (Ok tt, node, r)
      else
        match promiseAll (map fetchCollection (JsMap.keys modes)) r with
        | (Err e, r1) => (Err e, node, r1)
        | (Ok collections, r1) =>
            let (node1, r2) := clearAll collections node r1 in
            match webCollection with
            | None => (Ok tt, node1, r2)
            | Some web =>
                let (node2, r3) := setAll web (JsMap.values modes) node1 r2 in
                (Ok tt, node2, r3)
            end
        end
  end.

(** The ids of the collections that were found. *)
Definition resolvedIds (collections : list (option VariableCollection))
  : list string :=
  flat_map (fun coll => match coll with
                        | Some c => [coll_id c]
                        | None => []
                        end) collections.

(** A computation that makes no mode call. *)
Definition quiet {A} (f : M A) : Prop :=
  forall r, modeCalls (effects (snd (f r))) = modeCalls (effects r).

(** *** One node, and the task that the scheduler runs for it *)

(** [processSingleNode]: fills and strokes are different attributes, so the
    two [processPaints] of the [Promise.all] are run one after the other;
    both run to their end even if one rejects, and the mode reassignment is
    reached only when both are fulfilled. *)
Definition processSingleNode (node : SceneNode)
    (webVariablesMap : JsMap.t LibraryVariable)
    (webCollection : option VariableCollection) (r : Run)
  : Result unit * SceneNode * Run :=
  let webCollectionId := option_map coll_id webCollection in
  let '(fillsDone, node1, r1) :=
    processPaints node Fills webVariablesMap webCollectionId r in
  let '(strokesDone, node2, r2) :=
    processPaints node1 Strokes webVariablesMap webCollectionId r1 in
  match fillsDone, strokesDone with
  | Err e, _ => (Err e, node2, r2)
  | Ok _, Err e => (Err e, node2, r2)
  | Ok _, Ok _ =>
      if negb (Tree.isNestedInInstance node2)
      then reassignVariableModes node2 webCollection r2
      else (Ok tt, node2, r2)
  end.

(** The closure that [processNodesInChunks] enqueues for a node. *)
Definition nodeTask (node : SceneNode)
    (webVariablesMap : JsMap.t LibraryVariable)
    (webCollection : option VariableCollection) (r : Run)
  : Result unit * SceneNode * Run :=
  match processSingleNode node webVariablesMap webCollection r with
  | (Ok _, node1, r1) => (Ok tt, node1, r1)
  | (Err e, node1, r1) => (Ok tt, node1, emit (ConsoleError NodeSite e) r1)
  end.


(** The part of [main] that determines the Web collection. *)
Definition resolveWebCollection (webVariablesMap : JsMap.t LibraryVariable)
  : M (option VariableCollection) := fun r =>
  match JsMap.values webVariablesMap with
  | [] => (Ok None, r)
  | firstLibVar :: _ =>
      match getImportedVariable firstLibVar r with
      | (Err e, r1) => (Err e, r1)
      | (Ok None, r1) => (Ok None, r1)
      | (Ok (Some imported), r1) =>
          match withRetryDefault
                  (getVariableCollectionById (variableCollectionId imported)) r1
          with
          | (Ok coll, r2) => (Ok coll, r2)
          | (Err e, r2) => (Ok None, emit (ConsoleError WebCollectionSite e) r2)
          end
      end
  end.

End Pipeline.

(* ===================================================================== *)
(** ** src/code.ts: the first version of the import cache                 *)
(* ===================================================================== *)

Module CodeTs.
Section Imports.
Context {figma : Figma}.

(** [getImportedVariable] of src/code.ts: the same cache, the import is not
    retried, and a failed import rejects the call. *)
Definition getImportedVariable (libVar : LibraryVariable) : M Var := fun r =>
  match JsMap.get (importedVariablesCache r) (lib_key libVar) with
  | Some cached => (Ok cached, r)
  | None =>
      match call (importVariableByKey (lib_key libVar)) r with
      | (Ok importedVar, r1) =>
          (Ok importedVar,
           mkRun (host r1)
                 (JsMap.set (importedVariablesCache r1) (lib_key libVar)
                            importedVar)
                 (effects r1))
      | (Err e, r1) => (Err e, r1)
      end
  end.

End Imports.
End CodeTs.

(* ===================================================================== *)
(** ** RequestQueue: the tasks that were admitted                         *)
(* ===================================================================== *)

Module Admission.
Import RequestQueue.

(** The tasks that have been started: in flight or settled. *)
Definition started (s : State) : list nat :=
  inFlight s ++ map fst (settled s).

End Admission.

(* ===================================================================== *)
(** ** The forest seen depth first, and the ancestors of a node           *)
(* ===================================================================== *)

Module Forest.

(** A node followed by its descendants, depth first. *)
Fixpoint preorder (node : SceneNode) : list SceneNode :=
  node ::
  match node with
  | mkSceneNode _ _ _ _ _ _ cs =>
      match cs with
      | None => []
      | Some l => (fix each (l : list SceneNode) : list SceneNode :=
                     match l with
                     | [] => []
                     | c :: l' => preorder c ++ each l'
                     end) l
      end
  end.

(** Every node of a forest, once for each place it has in the forest. *)
Definition preorderForest (forest : list SceneNode) : list SceneNode :=
  flat_map preorder forest.

(** The types met on the way up from [current], nearest first. *)
Fixpoint typesFrom (current : BaseNode) : list string :=
  base_type current ::
  match base_parent current with
  | Some up => typesFrom up
  | None => []
  end.

(** The types of the ancestors of a node, nearest first. *)
Definition ancestorTypes (node : SceneNode) : list string :=
  match parent node with
  | Some current => typesFrom current
  | None => []
  end.

End Forest.

(* ===================================================================== *)
(** ** processNodesInChunks: the submission loop                          *)
(* ===================================================================== *)

Module Submission.
Import RequestQueue.

Definition CHUNK_SIZE : nat := 50.
Definition MAX_CONCURRENT_REQUESTS : Z := 5.

(** [nodes.slice(i, j)] for [i <= j]. *)
Definition slice {A} (nodes : list A) (i j : nat) : list A :=
  firstn (j - i) (skipn i nodes).

(** [chunk.forEach(node => requestQueue.enqueue(...))] *)
Definition submitChunk {A} (chunk : list A) (q : State) : State :=
  fold_left (fun q _ => enqueue q) chunk q.

(** The [for (let i = 0; i < nodes.length; i += CHUNK_SIZE)] loop from the
    index [i] on: the queue after it, and the progress lines it wrote, each
    with the number of nodes added so far and the total.  The loop has no
    [await]: no completion callback runs before it ends. *)
Equations? submitFrom {A} (nodes : list A) (i : nat) (q : State)
    (progress : list (nat * nat)) : State * list (nat * nat)
    by wf (length nodes - i) lt :=
  submitFrom nodes i q progress with lt_dec i (length nodes) => {
    | left _ =>
        submitFrom nodes (i + CHUNK_SIZE)
          (submitChunk (slice nodes i (i + CHUNK_SIZE)) q)
          (progress ++ [(Nat.min (i + CHUNK_SIZE) (length nodes),
                         length nodes)]);
    | right _ => (q, progress) }.
Proof. unfold CHUNK_SIZE. lia. Qed.

(** The chunks that the loop forms from the index [i] on. *)
Equations? chunksFrom {A} (nodes : list A) (i : nat) : list (list A)
    by wf (length nodes - i) lt :=
  chunksFrom nodes i with lt_dec i (length nodes) => {
    | left _ => slice nodes i (i + CHUNK_SIZE)
                :: chunksFrom nodes (i + CHUNK_SIZE);
    | right _ => [] }.
Proof. unfold CHUNK_SIZE. lia. Qed.

End Submission.

(* ===================================================================== *)
(** ** Operations that recover, and what a paint asks of the host         *)
(* ===================================================================== *)

Section Recovery.
Context {figma : Figma}.

(** From the host state [w] the operation is rate-limited [k] times in a
    row and then succeeds with [v], leaving the host in [w']. *)
Inductive recoversAfter {T} (fn : Remote T) (v : T)
  : nat -> World -> World -> Prop :=
| recovers_now w w' :
    invoke fn w = (Ok v, w') -> recoversAfter fn v 0 w w'
| recovers_later k w w1 w' e :
    invoke fn w = (Err e, w1) -> is429 e = true ->
    recoversAfter fn v k w1 w' -> recoversAfter fn v (S k) w w'.

(** A paint that [processPaints] looks up: a solid paint whose color is
    bound to a variable. *)
Definition isBoundSolid (paint : Paint) : bool :=
  String.eqb (paint_type paint) "SOLID" && truthy (boundColorId paint).

End Recovery.

(** The sum of the delays. *)
Definition totalWait (ws : list Z) : Z := fold_right Z.add 0%Z ws.

(* ===================================================================== *)
(** ** The catalog of the Web library and the main function               *)
(* ===================================================================== *)

(** An entry of [getAvailableLibraryVariableCollectionsAsync]. *)
Record LibraryVariableCollection := mkLibrary {
  library_name : string;
  library_key : string
}.

(** [figma.teamLibrary].  The first method is [None] when
    [typeof ... !== 'function']. *)
Class TeamLibrary (figma : Figma) := {
  getAvailableLibraryVariableCollectionsAsync :
    option (World -> Result (list LibraryVariableCollection) * World);
  getVariablesInLibraryCollectionAsync :
    string -> World -> Result (list LibraryVariable) * World
}.

(** What [getWebLibraryData] writes to the console. *)
Inductive Remark :=
| ApiUnavailable
| LibraryNotFound
| CatalogFailure (e : Error).

(** The calls of [figma.notify]. *)
Inductive Notice :=
| NoLayersSelected
| NoNodesToProcess
| NoVariablesInLibrary
| Done
| PluginFailed
| VariablesReplaced.

(** The calls that the rebinding of nodes makes, among the effects. *)
Definition pipelineCalls (es : list Effect) : list Effect :=
  filter (fun e => match e with
                   | Attempt (OtherApi _) => false
                   | Attempt _ => true
                   | _ => false
                   end) es.

Section Orchestration.
Context {figma : Figma} {library : TeamLibrary figma}.

Definition WEB_LIBRARY_NAME : string := "Web".

(** The module-level state: the run, [cachedWebVariablesMap] ([None] for
    null) and the remarks written by [getWebLibraryData]. *)
Record Session := mkSession {
  session_run : Run;
  cachedWebVariablesMap : option (JsMap.t LibraryVariable);
  remarks : list Remark
}.

Definition listLibraries
    (method : World -> Result (list LibraryVariableCollection) * World)
  : Remote (list LibraryVariableCollection) :=
  mkRemote (OtherApi "getAvailableLibraryVariableCollectionsAsync") method.

Definition listVariables (libraryKey : string)
  : Remote (list LibraryVariable) :=
  mkRemote (OtherApi "getVariablesInLibraryCollectionAsync")
           (getVariablesInLibraryCollectionAsync libraryKey).

(** [for (const libVar of variablesInLibrary) map.set(libVar.name, libVar)] *)
Definition buildCatalog (variablesInLibrary : list LibraryVariable)
  : JsMap.t LibraryVariable :=
  fold_left (fun m libVar => JsMap.set m (lib_name libVar) libVar)
            variablesInLibrary [].

(** [getWebLibraryData]: the map it returns and the session after it.  The
    cache is set to a new map before anything is awaited; every early
    return and the [catch] return that map, still empty. *)
Definition getWebLibraryData (s : Session)
  : JsMap.t LibraryVariable * Session :=
  match cachedWebVariablesMap s with
  | Some cached => (cached, s)
  | None =>
      match getAvailableLibraryVariableCollectionsAsync with
      | None =>
          ([], mkSession (session_run s) (Some [])
                         (remarks s ++ [ApiUnavailable]))
      | Some method =>
          match withRetryDefault (listLibraries method) (session_run s) with
          | (Err e, r1) =>
              ([], mkSession r1 (Some []) (remarks s ++ [CatalogFailure e]))
          | (Ok allLibraries, r1) =>
              match find (fun lib => String.eqb (library_name lib)
                                                WEB_LIBRARY_NAME)
                         allLibraries
              with
              | None =>
                  ([], mkSession r1 (Some [])
                                 (remarks s ++ [LibraryNotFound]))
              | Some targetLibrary =>
                  match withRetryDefault
                          (listVariables (library_key targetLibrary)) r1
                  with
                  | (Err e, r2) =>
                      ([], mkSession r2 (Some [])
                                     (remarks s ++ [CatalogFailure e]))
                  | (Ok variablesInLibrary, r2) =>
                      (buildCatalog variablesInLibrary,
                       mkSession r2 (Some (buildCatalog variablesInLibrary))
                                 (remarks s))
                  end
              end
          end
      end
  end.

(** The tasks of the nodes, run one after the other in the order of their
    submission (the queue starts them in that order and interleaves them at
    their awaits): the nodes after processing and the run. *)
Fixpoint runTasks (nodes : list SceneNode)
    (webVariablesMap : JsMap.t LibraryVariable)
    (webCollection : option VariableCollection) (r : Run)
  : list SceneNode * Run :=
  match nodes with
  | [] => ([], r)
  | node :: rest =>
      let '(_, node', r1) := nodeTask node webVariablesMap webCollection r in
      let (rest', r2) := runTasks rest webVariablesMap webCollection r1 in
      (node' :: rest', r2)
  end.

(** What a run of the plugin leaves: the notifications, the number of calls
    of [closePlugin], the session, and the nodes that were processed. *)
Record Report := mkReport {
  notices : list Notice;
  closes : nat;
  session : Session;
  processed : list SceneNode
}.

(** [main()] together with its [catch]. *)
Definition main (selection : list SceneNode) (s : Session) : Report :=
  let allNodes := Tree.getAllNodesInSelection selection in
  if length allNodes =? 0 then mkReport [NoNodesToProcess] 1 s []
  else
    let (webVariablesMap, s1) := getWebLibraryData s in
    if length webVariablesMap =? 0
    then mkReport [NoVariablesInLibrary] 1 s1 []
    else
      match resolveWebCollection webVariablesMap (session_run s1) with
      | (Err e, r2) =>
          mkReport [PluginFailed] 1
                   (mkSession r2 (cachedWebVariablesMap s1) (remarks s1)) []
      | (Ok webCollection, r2) =>
          let (nodes', r3) :=
            runTasks allNodes webVariablesMap webCollection r2 in
          mkReport [Done] 1
                   (mkSession r3 (cachedWebVariablesMap s1) (remarks s1))
                   nodes'
      end.

(** The script: the test of the selection, then [main]. *)
Definition plugin (selection : list SceneNode) (s : Session) : Report :=
  if length selection =? 0 then mkReport [NoLayersSelected] 1 s []
  else main selection s.

End Orchestration.

(** A node after processing is where it was in the document: it has the
    name, the type, the parent and the children it had. *)
Definition samePlace (node node' : SceneNode) : Prop :=
  node_name node' = node_name node /\ node_type node' = node_type node /\
  parent node' = parent node /\ children node' = children node.

(* ===================================================================== *)
(** ** src/code.ts: the first version of the plugin                       *)
(* ===================================================================== *)

(** The first version works node by node, depth first, with no retry, no
    queue and no [try]: every call is awaited before the next one is made
    and a failure of the host rejects the whole run.  Of its console output
    the two remarks of [getWebLibraryVariables] are kept. *)
Module CodeTsPlugin.
Section Plugin.
Context {figma : Figma} {library : TeamLibrary figma}.

(** [getWebLibraryVariables] *)
Definition getWebLibraryVariables (s : Session)
  : Result (JsMap.t LibraryVariable) * Session :=
  match cachedWebVariablesMap s with
  | Some cached => (Ok cached, s)
  | None =>
      match getAvailableLibraryVariableCollectionsAsync with
      | None =>
          (Ok [], mkSession (session_run s) (Some [])
                            (remarks s ++ [ApiUnavailable]))
      | Some method =>
          match call (listLibraries method) (session_run s) with
          | (Err e, r1) => (Err e, mkSession r1 (Some []) (remarks s))
          | (Ok allLibraries, r1) =>
              match find (fun lib => String.eqb (library_name lib) "Web")
                         allLibraries
              with
              | None =>
                  (Ok [], mkSession r1 (Some [])
                                    (remarks s ++ [LibraryNotFound]))
              | Some targetLibrary =>
                  match call (listVariables (library_key targetLibrary)) r1
                  with
                  | (Err e, r2) =>
                      (Err e, mkSession r2 (Some []) (remarks s))
                  | (Ok variablesInLibrary, r2) =>
                      (Ok (buildCatalog variablesInLibrary),
                       mkSession r2 (Some (buildCatalog variablesInLibrary))
                                 (remarks s))
                  end
              end
          end
      end
  end.

Inductive Kind := FillKind | StrokeKind.

(** One of the two loops of [collectBoundVariables]. *)
Fixpoint collectPaints (kind : Kind) (paints : list Paint)
  : M (list (Kind * string)) := fun r =>
  match paints with
  | [] => (Ok [], r)
  | paint :: rest =>
      match boundColorId paint with
      | Some variableId =>
          if truthy (Some variableId)
          then
            match call (getVariableById variableId) r with
            | (Err e, r1) => (Err e, r1)
            | (Ok None, r1) => collectPaints kind rest r1
            | (Ok (Some variable), r1) =>
                match collectPaints kind rest r1 with
                | (Ok found, r2) => (Ok ((kind, var_name variable) :: found), r2)
                | (Err e, r2) => (Err e, r2)
                end
            end
          else collectPaints kind rest r
      | None => collectPaints kind rest r
      end
  end.

Definition collectBoundVariables (node : SceneNode)
  : M (list (Kind * string)) := fun r =>
  match collectPaints FillKind
          (match fills node with Some ps => ps | None => [] end) r with
  | (Err e, r1) => (Err e, r1)
  | (Ok fromFills, r1) =>
      match collectPaints StrokeKind
              (match strokes node with Some ps => ps | None => [] end) r1 with
      | (Err e, r2) => (Err e, r2)
      | (Ok fromStrokes, r2) => (Ok (fromFills ++ fromStrokes), r2)
      end
  end.

(** A solid paint with its color bound to [binding], any other paint as it
    is. *)
Definition rebindSolid (binding : option string) (paint : Paint) : Paint :=
  if String.eqb (paint_type paint) "SOLID"
  then mkPaint (paint_type paint) binding (paint_data paint)
  else paint.

(** [clearBoundVariables]: every solid paint loses its [boundVariables]. *)
Definition clearBoundVariables (node : SceneNode) : SceneNode :=
  mkSceneNode (node_name node) (node_type node) (parent node)
    (option_map (map (rebindSolid None)) (fills node))
    (option_map (map (rebindSolid None)) (strokes node))
    (explicitVariableModes node) (children node).

(** The body of the loop of [applyWebVariables] once the variable is
    imported: every solid paint of the slot is bound to it. *)
Definition applyImported (kind : Kind) (imported : Var) (node : SceneNode)
  : SceneNode :=
  match kind with
  | FillKind =>
      match fills node with
      | Some ps =>
          setPaints node Fills
            (map (fun fill =>
                    if String.eqb (paint_type fill) "SOLID"
                    then setBoundVariableForPaint fill imported else fill) ps)
      | None => node
      end
  | StrokeKind =>
      match strokes node with
      | Some ps =>
          setPaints node Strokes
            (map (fun stroke =>
                    if String.eqb (paint_type stroke) "SOLID"
                    then setBoundVariableForPaint stroke imported else stroke)
                 ps)
      | None => node
      end
  end.

Fixpoint applyWebVariables (webVariablesMap : JsMap.t LibraryVariable)
    (collected : list (Kind * string)) (node : SceneNode) (r : Run)
  : Result unit * SceneNode * Run :=
  match collected with
  | [] => (Ok tt, node, r)
  | (kind, name) :: rest =>
      match JsMap.get webVariablesMap name with
      | None => applyWebVariables webVariablesMap rest node r
      | Some matchingLibraryVar =>
          match CodeTs.getImportedVariable matchingLibraryVar r with
          | (Err e, r1) => (Err e, node, r1)
          | (Ok importedVariable, r1) =>
              applyWebVariables webVariablesMap rest
                (applyImported kind importedVariable node) r1
          end
      end
  end.

(** [processNode] without its loop over the children. *)
Definition processOwn (webVariablesMap : JsMap.t LibraryVariable)
    (node : SceneNode) (r : Run) : Result unit * SceneNode * Run :=
  match collectBoundVariables node r with
  | (Err e, r1) => (Err e, node, r1)
  | (Ok collectedVariables, r1) =>
      applyWebVariables webVariablesMap collectedVariables
        (clearBoundVariables node) r1
  end.

Definition setChildren (node : SceneNode) (cs : list SceneNode) : SceneNode :=
  mkSceneNode (node_name node) (node_type node) (parent node) (fills node)
    (strokes node) (explicitVariableModes node) (Some cs).

(** [processNode]: the node, then its children from first to last, each
    with its whole subtree; the first failure ends the walk. *)
Fixpoint processNode (webVariablesMap : JsMap.t LibraryVariable)
    (node : SceneNode) (r : Run) {struct node}
  : Result unit * SceneNode * Run :=
  match processOwn webVariablesMap node r with
  | (Err e, node1, r1) => (Err e, node1, r1)
  | (Ok _, node1, r1) =>
      match node with
      | mkSceneNode _ _ _ _ _ _ cs =>
          match cs with
          | None => (Ok tt, node1, r1)
          | Some l =>
              let '(done, l', r2) :=
                (fix each (l : list SceneNode) (r : Run)
                   : Result unit * list SceneNode * Run :=
                   match l with
                   | [] => (Ok tt, [], r)
                   | child :: rest =>
                       match processNode webVariablesMap child r with
                       | (Err e, child', r') => (Err e, child' :: rest, r')
                       | (Ok _, child', r') =>
                           let '(done, rest', r'') := each rest r' in
                           (done, child' :: rest', r'')
                       end
                   end) l r1 in
              (done, setChildren node1 l', r2)
          end
      end
  end.

(** The loop [for (const layer of selection) await processNode(layer, ...)]
    of [processSelection]; the loop over the children in [processNode] is
    the same one. *)
Fixpoint processEach (webVariablesMap : JsMap.t LibraryVariable)
    (layers : list SceneNode) (r : Run)
  : Result unit * list SceneNode * Run :=
  match layers with
  | [] => (Ok tt, [], r)
  | layer :: rest =>
      match processNode webVariablesMap layer r with
      | (Err e, layer', r') => (Err e, layer' :: rest, r')
      | (Ok _, layer', r') =>
          let '(done, rest', r'') := processEach webVariablesMap rest r' in
          (done, layer' :: rest', r'')
      end
  end.

(** [processSelection()].  Nothing catches a rejection: the promise of the
    call at the end of the script is dropped, so after a failure there is
    no notification and the plugin is not closed. *)
Definition processSelection (selection : list SceneNode) (s : Session)
  : Result unit * Report :=
  match getWebLibraryVariables s with
  | (Err e, s1) => (Err e, mkReport [] 0 s1 selection)
  | (Ok webVariablesMap, s1) =>
      match processEach webVariablesMap selection (session_run s1) with
      | (Err e, layers, r) =>
          (Err e,
           mkReport [] 0 (mkSession r (cachedWebVariablesMap s1) (remarks s1))
                    layers)
      | (Ok _, layers, r) =>
          (Ok tt,
           mkReport [VariablesReplaced] 1
                    (mkSession r (cachedWebVariablesMap s1) (remarks s1))
                    layers)
      end
  end.

(** The script: the test of the selection, then [processSelection]. *)
Definition script (selection : list SceneNode) (s : Session)
  : Result unit * Report :=
  if length selection =? 0 then (Ok tt, mkReport [NoLayersSelected] 1 s [])
  else processSelection selection s.

End Plugin.

(** No solid paint of the list is bound to a variable. *)
Definition unbound (paints : option (list Paint)) : bool :=
  match paints with
  | Some ps =>
      forallb (fun paint =>
                 negb (String.eqb (paint_type paint) "SOLID")
                 || match boundColorId paint with
                    | Some _ => false
                    | None => true
                    end) ps
  | None => true
  end.

(** The names and types of a tree, depth first. *)
Definition outline (node : SceneNode) : list (string * string) :=
  map (fun n => (node_name n, node_type n)) (Forest.preorder node).

(** No solid paint of the tree is bound to a variable. *)
Definition strippedTree (node : SceneNode) : bool :=
  forallb (fun n => unbound (fills n) && unbound (strokes n))
          (Forest.preorder node).

(** [node'] is [node] with every solid fill bound to [bf] and every solid
    stroke bound to [bs], and nothing else changed. *)
Definition painted (bf bs : option string) (node node' : SceneNode) : Prop :=
  fills node' = option_map (map (rebindSolid bf)) (fills node) /\
  strokes node' = option_map (map (rebindSolid bs)) (strokes node) /\
  explicitVariableModes node' = explicitVariableModes node /\
  samePlace node node'.

(** Where the binding of a slot comes from: nowhere, or the variable that
    the cache holds for the catalog entry of a collected name. *)
Definition fromCatalog (webVariablesMap : JsMap.t LibraryVariable)
    (kind : Kind) (collected : list (Kind * string)) (cache : JsMap.t Var)
    (b : option string) : Prop :=
  b = None \/
  exists name libVar v,
    In (kind, name) collected /\
    JsMap.get webVariablesMap name = Some libVar /\
    JsMap.get cache (lib_key libVar) = Some v /\
    b = Some (var_id v).

End CodeTsPlugin.

(* ===================================================================== *)
(** ** Two small hosts                                                    *)
(* ===================================================================== *)

Definition rateLimited : Error := mkError (Some 429%Z) "Too Many Requests".

(** A host that answers every call with the rate-limited failure. *)
Definition busyHost : Figma := {|
  World := unit;
  getVariableByIdAsync := fun _ w => (Err rateLimited, w);
  importVariableByKeyAsync := fun _ w => (Err rateLimited, w);
  getVariableCollectionByIdAsync := fun _ w => (Err rateLimited, w)
|}.

Definition webVariable : Var :=
  mkVar "VariableID:web" "color/primary" "VariableCollectionId:web".
Definition localVariable : Var :=
  mkVar "VariableID:local" "color/primary" "VariableCollectionId:local".

(** A host that never fails: two variables of the same name, one in the
    local collection and one in the Web collection; every import yields the
    Web variable; every collection exists. *)
Definition calmHost : Figma := {|
  World := unit;
  getVariableByIdAsync := fun id w =>
    (Ok (if String.eqb id "VariableID:web" then Some webVariable
         else if String.eqb id "VariableID:local" then Some localVariable
         else None), w);
  importVariableByKeyAsync := fun _ w => (Ok webVariable, w);
  getVariableCollectionByIdAsync := fun id w =>
    (Ok (Some (mkVariableCollection id)), w)
|}.

Definition webCatalog : JsMap.t LibraryVariable :=
  [("color/primary"%string, mkLibraryVariable "color/primary" "key:primary")].

Definition solid (variableId : string) : Paint :=
  mkPaint "SOLID" (Some variableId) "{r:0,g:0,b:0}".

Definition freshRun (figma : Figma) (w : @World figma) : @Run figma :=
  mkRun w [] [].

Definition primary : LibraryVariable :=
  mkLibraryVariable "color/primary" "key:primary".

Definition webCollectionOfHost : VariableCollection :=
  mkVariableCollection "VariableCollectionId:web".

Definition twoModes : JsMap.t string :=
  [("VariableCollectionId:a", "1:0"); ("VariableCollectionId:b", "1:1")]%string.

(** A frame with two explicit modes, directly on the page. *)
Definition card : SceneNode :=
  mkSceneNode "card" "FRAME" None
    (Some [solid "VariableID:web"]) None (Some twoModes) None.

(** A rectangle inside a frame of a component instance. *)
Definition nestedLayer : SceneNode :=
  mkSceneNode "layer" "RECTANGLE"
    (Some (mkBaseNode "FRAME" (Some (mkBaseNode "INSTANCE" None))))
    (Some [solid "VariableID:local"]) (Some [solid "VariableID:web"])
    (Some twoModes) None.

(** Queues with limit 2 and 1 after a few events. *)
Definition threeSubmitted : RequestQueue.State :=
  RequestQueue.mkState 2 [2] 2 [0; 1] [] 3.

Definition oneRunning : RequestQueue.State :=
  RequestQueue.mkState 1 [] 1 [0] [] 1.

Definition oneDone : RequestQueue.State :=
  RequestQueue.mkState 1 [] 0 [] [(0, RequestQueue.Succeeded)] 1.

Definition oneRunningOneWaiting : RequestQueue.State :=
  RequestQueue.mkState 1 [1] 1 [0] [] 2.

(** A host that is rate-limited on its first two calls and then answers:
    its state is the number of calls it has received. *)
Definition flakyHost : Figma := {|
  World := nat;
  getVariableByIdAsync := fun _ w =>
    if w <? 2 then (Err rateLimited, S w) else (Ok (Some webVariable), S w);
  importVariableByKeyAsync := fun _ w =>
    if w <? 2 then (Err rateLimited, S w) else (Ok webVariable, S w);
  getVariableCollectionByIdAsync := fun id w =>
    if w <? 2 then (Err rateLimited, S w)
    else (Ok (Some (mkVariableCollection id)), S w)
|}.


(** The same host in a version of the API without the method that lists the
    libraries. *)
Definition oldLibrary : TeamLibrary calmHost := {|
  getAvailableLibraryVariableCollectionsAsync := None;
  getVariablesInLibraryCollectionAsync := fun _ w => (Ok [], w)
|}.

Definition freshSession (figma : Figma) (library : TeamLibrary figma)
    (w : @World figma) : @Session figma :=
  mkSession (freshRun figma w) None [].

(** A rectangle whose paints ask nothing of the host: a solid fill that is
    not bound and a gradient. *)
Definition plainLayer : SceneNode :=
  mkSceneNode "plain" "RECTANGLE" None
    (Some [mkPaint "SOLID" None "{r:1,g:1,b:1}";
           mkPaint "GRADIENT_LINEAR" None "stops"])
    None None None.

(** A frame with two layers in it; its fill is bound to the local variable
    and its stroke to the variable of the Web collection. *)
Definition screen : SceneNode :=
  mkSceneNode "screen" "FRAME" None
    (Some [solid "VariableID:local"; mkPaint "IMAGE" None "hash"])
    (Some [solid "VariableID:web"]) None
    (Some [card; plainLayer]).

(* ===================================================================== *)
(** * Properties                                                          *)
(* ===================================================================== *)

Unset Implicit Arguments.

(** ** Maps *)

Module JsMapFacts.
Section WithValues.
Context {V : Type}.
Implicit Types (m : JsMap.t V) (k : string) (v : V).

Lemma get_set_same m k v : JsMap.get (JsMap.set m k v) k = Some v.
Proof.
  induction m as [|[k' v'] m IH]; simpl.
  - now rewrite String.eqb_refl.
  - destruct (String.eqb k' k) eqn:E; simpl; rewrite E; auto.
Qed.

Lemma get_set_other m k k' v :
  k <> k' -> JsMap.get (JsMap.set m k v) k' = JsMap.get m k'.
Proof.
  intros Hne. induction m as [|[k0 v0] m IH]; simpl.
  - apply String.eqb_neq in Hne. now rewrite Hne.
  - destruct (String.eqb k0 k) eqn:E; simpl.
    + apply String.eqb_eq in E. subst k0.
      apply String.eqb_neq in Hne. now rewrite Hne.
    + now rewrite IH.
Qed.

Lemma has_get m k : JsMap.has m k = true -> exists v, JsMap.get m k = Some v.
Proof.
  unfold JsMap.has. destruct (JsMap.get m k) as [v|]; [|discriminate].
  now exists v.
Qed.

Lemma has_set m k k' v :
  JsMap.has m k' = true -> JsMap.has (JsMap.set m k v) k' = true.
Proof.
  unfold JsMap.has. destruct (string_dec k k') as [-> | Hne].
  - now rewrite get_set_same.
  - now rewrite get_set_other.
Qed.

Lemma get_delete_same m k : JsMap.get (JsMap.delete m k) k = None.
Proof.
  induction m as [|[k' v'] m IH]; simpl; [reflexivity|].
  destruct (String.eqb k' k) eqn:E; simpl; [assumption|].
  now rewrite E.
Qed.

Lemma get_delete_none m k k' :
  JsMap.get m k' = None -> JsMap.get (JsMap.delete m k) k' = None.
Proof.
  induction m as [|[k0 v0] m IH]; simpl; [reflexivity|].
  destruct (String.eqb k0 k') eqn:E; [discriminate|]. intros Hm.
  destruct (String.eqb k0 k); simpl; [auto|]. rewrite E. auto.
Qed.
End WithValues.
End JsMapFacts.

(** ** The scheduler *)

Module RequestQueueFacts.
Import RequestQueue.

Lemma Inv_create C : Inv C (create C).
Proof.
  constructor; simpl; auto.
Qed.

(** [next] re-establishes the invariant from the state left by a [push]
    or by [activeCount--], where at most one admission is owed. *)
Lemma Inv_next C s :
  maxConcurrency s = C ->
  activeCount s = Z.of_nat (length (inFlight s)) ->
  (length (queue s) <= 1 \/ (C <= activeCount s + 1)%Z) ->
  ((0 <= C)%Z -> (activeCount s <= C)%Z) ->
  Permutation (queue s ++ inFlight s ++ map fst (settled s))
              (seq 0 (submitted s)) ->
  Inv C (next s).
Proof.
  intros Hl Hc Hf Hb Hp. unfold next.
  destruct ((maxConcurrency s <=? activeCount s)%Z) eqn:Hle; simpl.
  { apply Z.leb_le in Hle. constructor; auto. right. lia. }
  destruct (length (queue s) =? 0) eqn:He; simpl.
  { apply Nat.eqb_eq in He. constructor; auto.
    left. destruct (queue s); [reflexivity | discriminate]. }
  destruct (queue s) as [|fn rest] eqn:Hq.
  { discriminate. }
  apply Z.leb_gt in Hle.
  constructor; simpl; auto.
  - rewrite length_app, Nat2Z.inj_add. simpl. lia.
  - destruct rest; [left; reflexivity | right].
    simpl in Hf. destruct Hf; lia.
  - intros _. lia.
  - etransitivity; [|exact Hp]. simpl.
    rewrite <- app_assoc. simpl.
    rewrite !(app_assoc rest).
    apply Permutation_sym, Permutation_middle.
Qed.

Lemma Inv_enqueue C s : Inv C s -> Inv C (enqueue s).
Proof.
  intros [Hl Hc Hf Hb Hp]. unfold enqueue.
  apply Inv_next;
    cbn [maxConcurrency queue activeCount inFlight settled submitted]; auto.
  - destruct Hf as [Hq | Hq]; [left; rewrite Hq; simpl; lia | right; lia].
  - rewrite seq_S. cbn [Nat.add]. rewrite <- app_assoc. cbn [app].
    etransitivity; [apply Permutation_sym, Permutation_middle|].
    etransitivity; [|apply Permutation_cons_append].
    apply perm_skip. exact Hp.
Qed.

Lemma remove_NoDup_length (t : nat) (l : list nat) :
  NoDup l -> In t l -> S (length (remove Nat.eq_dec t l)) = length l.
Proof.
  induction 1 as [|x l Hx Hnd IH]; simpl; [tauto|].
  intros [-> | Hin].
  - destruct (Nat.eq_dec t t) as [_ | Hne]; [|congruence].
    rewrite notin_remove by assumption. reflexivity.
  - destruct (Nat.eq_dec t x) as [-> | Hne]; [contradiction|].
    simpl. rewrite IH by assumption. reflexivity.
Qed.

Lemma remove_NoDup_perm (t : nat) (l : list nat) :
  NoDup l -> In t l -> Permutation (t :: remove Nat.eq_dec t l) l.
Proof.
  induction 1 as [|x l Hx Hnd IH]; simpl; [tauto|].
  intros [-> | Hin].
  - destruct (Nat.eq_dec t t) as [_ | Hne]; [|congruence].
    rewrite notin_remove by assumption. reflexivity.
  - destruct (Nat.eq_dec t x) as [-> | Hne]; [contradiction|].
    etransitivity; [apply perm_swap|]. apply perm_skip. auto.
Qed.

Lemma Inv_inFlight_NoDup C s : Inv C s -> NoDup (inFlight s).
Proof.
  intros [_ _ _ _ Hp].
  apply Permutation_sym in Hp.
  pose proof (Permutation_NoDup Hp (seq_NoDup _ _)) as Hnd.
  apply NoDup_app_remove_l in Hnd. apply NoDup_app_remove_r in Hnd.
  exact Hnd.
Qed.

Lemma Inv_onFinally C s t o :
  Inv C s -> In t (inFlight s) -> Inv C (onFinally t o s).
Proof.
  intros HI Hin. pose proof (Inv_inFlight_NoDup _ _ HI) as Hnd.
  destruct HI as [Hl Hc Hf Hb Hp]. unfold onFinally.
  pose proof (remove_NoDup_length t _ Hnd Hin) as Hlen.
  apply Inv_next;
    cbn [maxConcurrency queue activeCount inFlight settled submitted map fst];
    auto.
  - lia.
  - destruct Hf as [Hq | Hq]; [left; rewrite Hq; simpl; lia | right; lia].
  - intros H0. specialize (Hb H0). lia.
  - etransitivity; [| exact Hp].
    apply Permutation_app_head.
    etransitivity; [apply Permutation_sym, Permutation_middle|].
    rewrite app_comm_cons. apply Permutation_app_tail.
    apply remove_NoDup_perm; assumption.
Qed.

Lemma existsb_eqb_In (t : nat) (l : list nat) :
  existsb (Nat.eqb t) l = true <-> In t l.
Proof.
  rewrite existsb_exists. split.
  - intros [x [Hin Hx]]. apply Nat.eqb_eq in Hx. now subst.
  - intros Hin. exists t. split; [assumption | apply Nat.eqb_refl].
Qed.

Lemma Inv_step C e s s' : Inv C s -> step e s = Some s' -> Inv C s'.
Proof.
  intros HI. destruct e as [|t o]; simpl.
  - intros [= <-]. now apply Inv_enqueue.
  - destruct (existsb (Nat.eqb t) (inFlight s)) eqn:Hex; [|discriminate].
    intros [= <-]. apply Inv_onFinally; [assumption|].
    now apply existsb_eqb_In.
Qed.

Lemma reachable_Inv C s : reachable C s -> Inv C s.
Proof.
  induction 1 as [|e s s' _ IH Hstep].
  - apply Inv_create.
  - eapply Inv_step; eassumption.
Qed.

Lemma run_reachable C es s s' :
  reachable C s -> run es s = Some s' -> reachable C s'.
Proof.
  revert s. induction es as [|e es IH]; simpl; intros s Hr.
  - now intros [= <-].
  - destruct (step e s) as [s1|] eqn:Hs; [|discriminate].
    apply IH. eapply reach_step; eassumption.
Qed.



Lemma onFinally_refill C s t o h rest :
  (0 <= C)%Z -> Inv C s -> queue s = h :: rest ->
  queue (onFinally t o s) = rest /\
  inFlight (onFinally t o s) = remove Nat.eq_dec t (inFlight s) ++ [h] /\
  activeCount (onFinally t o s) = activeCount s.
Proof.
  intros H0 [Hl Hc Hf Hb Hp] Hq. specialize (Hb H0).
  destruct Hf as [Hf | Hf]; [congruence|].
  unfold onFinally, next; simpl. rewrite Hq, Hl. simpl.
  replace (C <=? activeCount s - 1)%Z with false
    by (symmetry; apply Z.leb_gt; lia).
  simpl. repeat split. lia.
Qed.


Lemma Inv_work C s :
  Inv C s ->
  length (queue s) + length (inFlight s) + length (settled s) = submitted s.
Proof.
  intros [_ _ _ _ Hp]. apply Permutation_length in Hp.
  rewrite !length_app, length_map, length_seq in Hp. lia.
Qed.

Lemma Inv_idle_terminal C s :
  Inv C s -> busy s = false ->
  queue s = [] /\ activeCount s = 0%Z /\
  forall t, t < submitted s -> terminal s t.
Proof.
  intros [Hl Hc Hf Hb Hp] Hbusy. unfold busy in Hbusy.
  apply orb_false_iff in Hbusy as [Ha Hq].
  apply Z.ltb_ge in Ha. apply Nat.ltb_ge in Hq.
  assert (Hq0 : queue s = []) by (destruct (queue s); simpl in Hq; [auto|lia]).
  assert (Hf0 : inFlight s = [])
    by (destruct (inFlight s); simpl in Hc; [auto|lia]).
  rewrite Hf0 in Hc. simpl in Hc.
  repeat split; auto.
  intros t Ht. rewrite Hq0, Hf0 in Hp. simpl in Hp.
  assert (Hin : In t (map fst (settled s))).
  { apply (Permutation_in t (Permutation_sym Hp)). apply in_seq. lia. }
  apply in_map_iff in Hin as [[t' o] [Heq Hin]]. simpl in Heq. subst t'.
  now exists o.
Qed.


(** C1: in every state that a queue with limit [C] (a count, [0 <= C])
    can reach by any sequence of submissions and completions, at most [C]
    tasks are running, [activeCount] is their number, while tasks are
    pending it equals [min C (pending + running)], and a completion moves
    the head pending task into the freed slot in the same queue event. *)
Theorem C1_bounded_occupancy (C : Z) (s : State) :
  (0 <= C)%Z -> reachable C s ->
  (activeCount s <= C)%Z /\
  activeCount s = Z.of_nat (length (inFlight s)) /\
  (queue s <> [] ->
   activeCount s
   = Z.min C (Z.of_nat (length (queue s)) + activeCount s)) /\
  (forall t o h rest,
      queue s = h :: rest -> In t (inFlight s) ->
      exists s', step (Settle t o) s = Some s' /\
                 queue s' = rest /\
                 inFlight s' = remove Nat.eq_dec t (inFlight s) ++ [h] /\
                 activeCount s' = activeCount s).
Proof.
  intros H0 Hr. pose proof (reachable_Inv _ _ Hr) as HI.
  pose proof HI as [Hl Hc Hf Hb Hp]. specialize (Hb H0).
  repeat split; auto.
  - intros Hq. destruct Hf as [Hf | Hf]; [contradiction|].
    destruct (queue s); [contradiction|]. simpl length. lia.
  - intros t o h rest Hq Hin. exists (onFinally t o s). split.
    + simpl. replace (existsb (Nat.eqb t) (inFlight s)) with true; auto.
      symmetry. now apply existsb_eqb_In.
    + eapply onFinally_refill; eassumption.
Qed.

(** C5: [waitUntilEmpty] leaves its loop only at a poll that finds the
    pending list empty and [activeCount] zero, every earlier poll having
    found the queue busy, and then every task submitted so far, whenever
    it was enqueued, has settled. *)
Theorem C5_drain_completeness (C : Z) (polls : list State) (s : State) :
  Forall (reachable C) polls -> waitUntilEmpty polls = Some s ->
  (exists before after,
      polls = before ++ s :: after /\
      Forall (fun p => busy p = true) before) /\
  queue s = [] /\ activeCount s = 0%Z /\
  forall t, t < submitted s -> terminal s t.
Proof.
  induction polls as [|p later IH]; simpl; [discriminate|].
  intros Hall Hw. inversion Hall as [|? ? Hp Hlater]; subst.
  destruct (busy p) eqn:Hb.
  - destruct (IH Hlater Hw) as [[before [after [-> Hbusy]]] Hrest].
    split; [|exact Hrest].
    exists (p :: before), after. split; [reflexivity|].
    constructor; assumption.
  - injection Hw as <-. split.
    + exists [], later. split; [reflexivity | constructor].
    + eapply Inv_idle_terminal; [apply reachable_Inv|]; eassumption.
Qed.


End RequestQueueFacts.

(** ** The flattener *)

Module TreeFacts.
Import Tree.

Lemma bfsLoop_result (n : nat) :
  forall queue result,
    forestSize queue <= n ->
    bfsLoop queue result = result ++ bfsLoop queue [].
Proof.
  induction n as [|n IH]; intros [|node rest] result Hn; simp bfsLoop.
  - now rewrite app_nil_r.
  - unfold forestSize in Hn. simpl in Hn.
    rewrite nodeSize_children in Hn. lia.
  - now rewrite app_nil_r.
  - assert (Hlt : forestSize (rest ++ childrenOf node) <= n).
    { rewrite forestSize_app. unfold forestSize in Hn |- *. simpl in Hn.
      rewrite nodeSize_children in Hn. unfold forestSize in Hn. lia. }
    rewrite (IH _ (result ++ [node]) Hlt), (IH _ ([] ++ [node]) Hlt).
    now rewrite <- app_assoc.
Qed.

(** Once a whole prefix of the queue has been visited, its children are
    at the back of the queue in the same order. *)
Lemma bfsLoop_prefix (xs : list SceneNode) :
  forall cs,
    bfsLoop (xs ++ cs) [] = xs ++ bfsLoop (cs ++ flat_map childrenOf xs) [].
Proof.
  induction xs as [|x xs IH]; intros cs; simpl.
  - now rewrite app_nil_r.
  - simp bfsLoop. rewrite (bfsLoop_result _ _ _ (le_n _)). simpl.
    rewrite <- app_assoc, IH, <- app_assoc. reflexivity.
Qed.

Lemma bfsLoop_levelwise (forest : list SceneNode) :
  bfsLoop forest [] = forest ++ bfsLoop (flat_map childrenOf forest) [].
Proof.
  rewrite <- (app_nil_r forest) at 1. now rewrite bfsLoop_prefix.
Qed.

Lemma bfsLoop_length (n : nat) :
  forall queue result,
    forestSize queue <= n ->
    length (bfsLoop queue result) = length result + forestSize queue.
Proof.
  induction n as [|n IH]; intros [|node rest] result Hn; simp bfsLoop.
  - unfold forestSize. simpl. lia.
  - unfold forestSize in Hn. simpl in Hn.
    rewrite nodeSize_children in Hn. lia.
  - unfold forestSize. simpl. lia.
  - assert (Hsz : forestSize (node :: rest)
                  = S (forestSize (rest ++ childrenOf node))).
    { rewrite forestSize_app. unfold forestSize at 1. simpl.
      rewrite nodeSize_children. fold (forestSize rest). lia. }
    rewrite IH by lia. rewrite length_app. simpl. lia.
Qed.

Lemma forestHeight_app (f g : list SceneNode) :
  forestHeight (f ++ g) = Nat.max (forestHeight f) (forestHeight g).
Proof.
  induction f as [|x f IH]; simpl; [reflexivity|].
  fold (forestHeight (f ++ g)). fold (forestHeight f). rewrite IH. lia.
Qed.

Lemma nodeHeight_children (node : SceneNode) :
  nodeHeight node = S (forestHeight (childrenOf node)).
Proof.
  destruct node as [n ty p f s m cs]. unfold childrenOf. simpl.
  destruct cs as [l|]; reflexivity.
Qed.

Lemma forestHeight_children (forest : list SceneNode) :
  forestHeight (flat_map childrenOf forest) = pred (forestHeight forest).
Proof.
  induction forest as [|x f IH]; simpl; [reflexivity|].
  fold (forestHeight f). rewrite forestHeight_app, IH, nodeHeight_children.
  lia.
Qed.

Lemma forestHeight_0 (forest : list SceneNode) :
  forestHeight forest = 0 -> forest = [].
Proof.
  destruct forest as [|x f]; [reflexivity|]. simpl.
  rewrite nodeHeight_children. lia.
Qed.

Lemma level_children (d : nat) (forest : list SceneNode) :
  level (S d) forest = level d (flat_map childrenOf forest).
Proof.
  induction d as [|d IH]; [reflexivity|].
  change (level (S (S d)) forest)
    with (flat_map childrenOf (level (S d) forest)).
  now rewrite IH.
Qed.

Lemma flat_map_levels_shift (forest : list SceneNode) (h : nat) :
  flat_map (fun d => level d forest) (seq 1 h)
  = flat_map (fun d => level d (flat_map childrenOf forest)) (seq 0 h).
Proof.
  rewrite <- seq_shift. generalize (seq 0 h) as ds.
  induction ds as [|d ds IH]; [reflexivity|].
  cbn [map flat_map]. rewrite IH, level_children. reflexivity.
Qed.

Lemma bfsLoop_levels (h : nat) :
  forall forest,
    forestHeight forest = h ->
    bfsLoop forest [] = flat_map (fun d => level d forest) (seq 0 h).
Proof.
  induction h as [|h IH]; intros forest Hh.
  - rewrite (forestHeight_0 _ Hh). now simp bfsLoop.
  - rewrite bfsLoop_levelwise.
    cbn [seq flat_map level]. rewrite flat_map_levels_shift.
    f_equal. apply IH. rewrite forestHeight_children, Hh. reflexivity.
Qed.

(** C8: the flattener returns the nodes of the forest level by level: the
    roots, then all nodes at depth 1, then all at depth 2, and so on, the
    nodes of a level being the children of the nodes of the level above
    in parent order and, under a parent, in sibling order; no node is lost
    or repeated (the result has as many entries as the forest has nodes);
    the selection of the example gives [root, A, B, A1, A2]. *)
Theorem C8_breadth_first_order :
  (forall selection,
      getAllNodesInSelection selection
      = flat_map (fun d => level d selection)
                 (seq 0 (forestHeight selection))) /\
  (forall d selection,
      level (S d) selection = flat_map childrenOf (level d selection)) /\
  (forall selection,
      length (getAllNodesInSelection selection) = forestSize selection) /\
  map node_name (getAllNodesInSelection exampleSelection)
  = ["root"; "A"; "B"; "A1"; "A2"]%string.
Proof.
  repeat split.
  - intros selection. now apply bfsLoop_levels.
  - intros selection. unfold getAllNodesInSelection.
    now rewrite (bfsLoop_length _ _ _ (le_n _)).
Qed.

End TreeFacts.

(** ** Retry, caches and the rebinding pipeline *)

Section PipelineFacts.
Context {figma : Figma}.

Lemma withRetry_step T (fn : Remote T) retries delayMs r :
  withRetry fn retries delayMs r =
  match call fn r with
  | (Ok v, r1) => (Ok v, r1)
  | (Err e, r1) =>
      if (0 <? retries)%Z && is429 e
      then withRetry fn (retries - 1) (delayMs * 2)
             (emit (Wait delayMs) (emit (ConsoleWarn delayMs) r1))
      else (Err e, r1)
  end.
Proof.
  simp withRetry.
  destruct (call fn r) as [[v|e] r1]; simpl; [reflexivity|].
  destruct (Z_lt_dec 0 retries) as [H|H]; simpl.
  - replace (0 <? retries)%Z with true by (symmetry; apply Z.ltb_lt; lia).
    simpl. destruct (is429 e); reflexivity.
  - replace (0 <? retries)%Z with false by (symmetry; apply Z.ltb_ge; lia).
    reflexivity.
Qed.

Lemma call_run T (fn : Remote T) r :
  call fn r
  = (fst (invoke fn (host r)),
     mkRun (snd (invoke fn (host r))) (importedVariablesCache r)
           (effects r ++ [Attempt (api fn)])).
Proof.
  unfold call. destruct (invoke fn (host r)); reflexivity.
Qed.

(** Whatever the operation does, [withRetry] retries at most [retries]
    times, leaves the cache alone, and adds the effects of its attempts,
    warnings and delays and nothing else. *)
Lemma withRetry_shape T (fn : Remote T) (n : nat) :
  forall retries delayMs r,
    Z.to_nat retries = n ->
    exists k,
      k <= n /\
      effects (snd (withRetry fn retries delayMs r))
      = effects r ++ backoff (api fn) k delayMs /\
      importedVariablesCache (snd (withRetry fn retries delayMs r))
      = importedVariablesCache r.
Proof.
  induction n as [|n IH]; intros retries delayMs r Hn;
    rewrite withRetry_step, call_run;
    destruct (invoke fn (host r)) as [[v|e] w]; simpl.
  - exists 0. auto.
  - replace (0 <? retries)%Z with false by (symmetry; apply Z.ltb_ge; lia).
    exists 0. auto.
  - exists 0. split; [lia | auto].
  - destruct ((0 <? retries)%Z && is429 e) eqn:Hc.
    + destruct (IH (retries - 1)%Z (delayMs * 2)%Z
                   (emit (Wait delayMs) (emit (ConsoleWarn delayMs)
                      (mkRun w (importedVariablesCache r)
                             (effects r ++ [Attempt (api fn)])))))
        as [k [Hk [He Hcache]]]; [lia|].
      exists (S k). split; [lia|]. rewrite He, Hcache. simpl.
      rewrite <- !app_assoc. auto.
    + exists 0. split; [lia | auto].
Qed.

Lemma attempts_backoff a k d : attempts (backoff a k d) = k + 1.
Proof.
  revert d. induction k as [|k IH]; intros d; [reflexivity|].
  cbn [backoff]. unfold attempts in *. cbn [filter length].
  now rewrite IH.
Qed.

Lemma waits_backoff a k d : waits (backoff a k d) = doubling k d.
Proof.
  revert d. induction k as [|k IH]; intros d; [reflexivity|].
  cbn [backoff doubling]. unfold waits in *. cbn [flat_map app].
  now rewrite IH.
Qed.

Lemma withRetry_alwaysRateLimited T (fn : Remote T) (n : nat) :
  alwaysRateLimited fn ->
  forall retries delayMs r,
    (0 <= retries)%Z -> Z.to_nat retries = n ->
    exists e w r',
      withRetry fn retries delayMs r = (Err e, r') /\
      invoke fn w = (Err e, host r') /\
      effects r' = effects r ++ backoff (api fn) n delayMs.
Proof.
  intros Hfn. induction n as [|n IH]; intros retries delayMs r H0 Hn;
    rewrite withRetry_step, call_run;
    destruct (Hfn (host r)) as [e [w' [Hcall H429]]];
    rewrite Hcall; cbn [fst snd]; rewrite H429.
  - replace (0 <? retries)%Z with false by (symmetry; apply Z.ltb_ge; lia).
    cbn [andb]. exists e, (host r). eexists. split; [reflexivity|].
    cbn [host effects]. auto.
  - replace (0 <? retries)%Z with true by (symmetry; apply Z.ltb_lt; lia).
    cbn [andb].
    edestruct (IH (retries - 1)%Z (delayMs * 2)%Z) as [e1 [w1 [r1 [Hw [Hi He]]]]];
      [lia | lia |].
    rewrite Hw. exists e1, w1, r1. split; [reflexivity|]. split; [exact Hi|].
    rewrite He. cbn [emit effects backoff]. rewrite <- !app_assoc.
    reflexivity.
Qed.

(** C2 (amended): the second argument counts the retries, not the
    attempts.  An operation that is rate-limited on every call is attempted
    [retries + 1] times, with the delays [d, 2d, 4d, ...] ([retries] of
    them) between consecutive attempts, and the failure of the last
    attempt is thrown as it is; a failure that is not rate-limited is
    thrown as it is after the one attempt that produced it. *)
Theorem C2_retry_bound T (fn : Remote T) (retries delayMs : Z) (r : Run) :
  (0 <= retries)%Z ->
  (alwaysRateLimited fn ->
   exists e w r',
     withRetry fn retries delayMs r = (Err e, r') /\
     invoke fn w = (Err e, host r') /\
     effects r'
     = effects r ++ backoff (api fn) (Z.to_nat retries) delayMs /\
     attempts (backoff (api fn) (Z.to_nat retries) delayMs)
     = Z.to_nat retries + 1 /\
     waits (backoff (api fn) (Z.to_nat retries) delayMs)
     = doubling (Z.to_nat retries) delayMs) /\
  (forall e w',
      invoke fn (host r) = (Err e, w') -> is429 e = false ->
      withRetry fn retries delayMs r
      = (Err e, mkRun w' (importedVariablesCache r)
                      (effects r ++ [Attempt (api fn)]))).
Proof.
  intros H0. split.
  - intros Hfn.
    destruct (withRetry_alwaysRateLimited T fn _ Hfn retries delayMs r H0 eq_refl)
      as [e [w [r' [Hw [Hi He]]]]].
    exists e, w, r'. repeat split; auto.
    + apply attempts_backoff.
    + apply waits_backoff.
  - intros e w' Hcall H429.
    rewrite withRetry_step, call_run, Hcall. cbn [fst snd].
    rewrite H429, andb_false_r. reflexivity.
Qed.

(** *** The import cache *)

Lemma getImportedVariable_warm libVar v r :
  JsMap.get (importedVariablesCache r) (lib_key libVar) = Some v ->
  getImportedVariable libVar r = (Ok (Some v), r).
Proof.
  intros Hget. unfold getImportedVariable, JsMap.has. now rewrite Hget.
Qed.

Lemma getImportedVariable_cached libVar v r r' :
  getImportedVariable libVar r = (Ok (Some v), r') ->
  JsMap.get (importedVariablesCache r') (lib_key libVar) = Some v.
Proof.
  unfold getImportedVariable.
  destruct (JsMap.has (importedVariablesCache r) (lib_key libVar)).
  - intros [= Hg <-]. exact Hg.
  - destruct (withRetryDefault (importVariableByKey (lib_key libVar)) r)
      as [[imported | e] r1]; simpl; [|discriminate].
    intros [= <- <-]. simpl. apply JsMapFacts.get_set_same.
Qed.

(** A call that nothing interleaves with is its two segments in a row. *)
Lemma getImportedVariable_segments libVar r :
  getImportedVariable libVar r
  = match importStart libVar r with
    | (Returned v, r1) => (Ok v, r1)
    | (Awaiting lv res, r1) => afterImport lv res r1
    | (Fresh _, r1) => (Ok None, r1)
    end.
Proof.
  unfold getImportedVariable, importStart.
  destruct (JsMap.has (importedVariablesCache r) (lib_key libVar));
    [reflexivity|].
  now destruct (withRetryDefault (importVariableByKey (lib_key libVar)) r).
Qed.

Lemma importAttempts_app key es es' :
  importAttempts key (es ++ es')
  = importAttempts key es + importAttempts key es'.
Proof.
  unfold importAttempts. now rewrite filter_app, length_app.
Qed.

Lemma importAttempts_backoff key a k d :
  importAttempts key (backoff a k d) <= k + 1.
Proof.
  revert d. unfold importAttempts.
  induction k as [|k IH]; intros d; cbn [backoff filter].
  - destruct a; simpl; try lia. destruct (String.eqb key0 key); simpl; lia.
  - specialize (IH (d * 2)%Z).
    destruct a; simpl; try lia. destruct (String.eqb key0 key); simpl; lia.
Qed.

Lemma freshCount_replace i q x qs :
  nth_error qs i = Some x ->
  freshCount (replace i q qs) + (if isFresh x then 1 else 0)
  = freshCount qs + (if isFresh q then 1 else 0).
Proof.
  unfold freshCount. revert i.
  induction qs as [|y qs IH]; intros [|i]; simpl; try discriminate.
  - intros [= ->]. destruct (isFresh x), (isFresh q); simpl; lia.
  - intros Hi. specialize (IH i Hi).
    destruct (isFresh y); simpl; lia.
Qed.

(** A step makes at most four import calls, and only by starting a
    request. *)
Lemma resume_bound key i p :
  importCalls key (shared (resume i p)) + 4 * freshCount (requests (resume i p))
  <= importCalls key (shared p) + 4 * freshCount (requests p).
Proof.
  unfold resume.
  destruct (nth_error (requests p) i) as [[lv | lv res | v]|] eqn:Hi;
    try apply le_n.
  - unfold importStart.
    destruct (JsMap.has (importedVariablesCache (shared p)) (lib_key lv)).
    + pose proof (freshCount_replace i
                    (Returned (JsMap.get (importedVariablesCache (shared p))
                                         (lib_key lv))) _ _ Hi) as Hrep.
      cbn [shared requests isFresh] in *. lia.
    + destruct (withRetry_shape _ (importVariableByKey (lib_key lv)) 3
                  3%Z 1000%Z (shared p) eq_refl) as [k [Hk [He _]]].
      unfold withRetryDefault.
      destruct (withRetry (importVariableByKey (lib_key lv)) 3 1000 (shared p))
        as [res r1].
      pose proof (freshCount_replace i (Awaiting lv res) _ _ Hi) as Hrep.
      pose proof (importAttempts_backoff key (ImportVariableByKey (lib_key lv))
                    k 1000%Z) as Ha.
      cbn [shared requests isFresh snd api importVariableByKey] in *.
      unfold importCalls. rewrite He, importAttempts_app. lia.
  - unfold importResume, afterImport, importCalls.
    destruct res as [imported | e].
    + pose proof (freshCount_replace i (Returned (Some imported)) _ _ Hi)
        as Hrep.
      cbn [shared requests isFresh effects] in *. lia.
    + pose proof (freshCount_replace i (Returned None) _ _ Hi) as Hrep.
      cbn [shared requests isFresh effects emit] in *.
      rewrite importAttempts_app.
      change (importAttempts key [ConsoleError (ImportSite (lib_key lv)) e])
        with 0.
      lia.
Qed.

Lemma schedule_bound key order :
  forall p,
    importCalls key (shared (schedule order p))
    + 4 * freshCount (requests (schedule order p))
    <= importCalls key (shared p) + 4 * freshCount (requests p).
Proof.
  induction order as [|i order IH]; intros p; simpl; [lia|].
  etransitivity; [apply IH | apply resume_bound].
Qed.

Lemma freshCount_repeat libVar N : freshCount (repeat (Fresh libVar) N) = N.
Proof.
  unfold freshCount. induction N as [|N IH]; simpl; [reflexivity|].
  now rewrite IH.
Qed.

Lemma Forall_replace {A} (P : A -> Prop) i x (l : list A) :
  Forall P l -> P x -> Forall P (replace i x l).
Proof.
  intros Hl Hx. revert i.
  induction Hl as [|y l Hy Hl IH]; intros [|i]; simpl; auto.
Qed.

Lemma settledIn_set libVar r v q :
  settledIn libVar r q ->
  settledIn libVar
    (mkRun (host r)
           (JsMap.set (importedVariablesCache r) (lib_key libVar) v)
           (effects r)) q.
Proof.
  destruct q as [lv | lv res | [x|]]; simpl; auto.
  apply JsMapFacts.has_set.
Qed.

Lemma settledIn_cache libVar r r' q :
  importedVariablesCache r' = importedVariablesCache r ->
  settledIn libVar r q -> settledIn libVar r' q.
Proof.
  intros Hc. destruct q as [lv | lv res | [x|]]; simpl; auto.
  now rewrite Hc.
Qed.

Lemma resume_settledIn libVar i p :
  Forall (settledIn libVar (shared p)) (requests p) ->
  Forall (settledIn libVar (shared (resume i p))) (requests (resume i p)).
Proof.
  intros Hall. unfold resume.
  destruct (nth_error (requests p) i) as [[lv | lv res | v]|] eqn:Hi; auto.
  - assert (Hlv : lv = libVar).
    { apply nth_error_In in Hi.
      exact (proj1 (Forall_forall _ _) Hall _ Hi). }
    subst lv. unfold importStart.
    destruct (JsMap.has (importedVariablesCache (shared p)) (lib_key libVar))
      eqn:Hhas.
    + cbn [shared requests]. apply Forall_replace; [assumption|].
      destruct (JsMap.get _ _); simpl; auto.
    + destruct (withRetry_shape _ (importVariableByKey (lib_key libVar)) 3
                  3%Z 1000%Z (shared p) eq_refl) as [k [_ [_ Hc]]].
      unfold withRetryDefault.
      destruct (withRetry (importVariableByKey (lib_key libVar)) 3 1000 (shared p))
        as [res r1].
      cbn [shared requests snd] in *. apply Forall_replace; [|reflexivity].
      eapply Forall_impl; [|exact Hall].
      intros q. now apply settledIn_cache.
  - assert (Hlv : lv = libVar).
    { apply nth_error_In in Hi.
      exact (proj1 (Forall_forall _ _) Hall _ Hi). }
    subst lv. unfold importResume, afterImport.
    destruct res as [imported | e]; cbn [shared requests].
    + apply Forall_replace.
      * eapply Forall_impl; [|exact Hall].
        intros q. apply settledIn_set.
      * simpl. unfold JsMap.has. now rewrite JsMapFacts.get_set_same.
    + apply Forall_replace; [|exact I].
      eapply Forall_impl; [|exact Hall].
      intros q. now apply settledIn_cache.
Qed.

Lemma schedule_settledIn libVar order :
  forall p,
    Forall (settledIn libVar (shared p)) (requests p) ->
    Forall (settledIn libVar (shared (schedule order p)))
           (requests (schedule order p)).
Proof.
  induction order as [|i order IH]; intros p Hall; simpl; [assumption|].
  apply IH. now apply resume_settledIn.
Qed.

(** C3 (amended): the cache is read before the import is awaited and
    written after it, so [N] requests for one key made by [N] tasks may
    each run their own import; together they call the remote import at
    most [4 * N] times (every request tries at most four times).  As soon
    as one of them has returned a variable the key is cached, and a later
    request returns the cached variable, makes no remote call and leaves
    the run as it is; in particular a request that follows a successful
    one, with nothing in between, returns the same variable, in this
    version and in the one of src/code.ts. *)
Theorem C3_import_cache (libVar : LibraryVariable) (N : nat)
    (order : list nat) (r : Run) :
  let key := lib_key libVar in
  let p' := schedule order (mkPool r (repeat (Fresh libVar) N)) in
  importCalls key (shared p') <= importCalls key r + 4 * N /\
  ((exists i v, nth_error (requests p') i = Some (Returned (Some v))) ->
   exists cached,
     JsMap.get (importedVariablesCache (shared p')) key = Some cached /\
     getImportedVariable libVar (shared p') = (Ok (Some cached), shared p')) /\
  (forall v r1,
      getImportedVariable libVar r = (Ok (Some v), r1) ->
      JsMap.get (importedVariablesCache r1) key = Some v /\
      getImportedVariable libVar r1 = (Ok (Some v), r1)) /\
  (forall v r1,
      CodeTs.getImportedVariable libVar r = (Ok v, r1) ->
      JsMap.get (importedVariablesCache r1) key = Some v /\
      CodeTs.getImportedVariable libVar r1 = (Ok v, r1)).
Proof.
  intros key p'. split; [|split; [|split]].
  - pose proof (schedule_bound key order
                  (mkPool r (repeat (Fresh libVar) N))) as Hb.
    fold p' in Hb. cbn [shared requests] in Hb.
    rewrite freshCount_repeat in Hb. lia.
  - intros [i [v Hi]].
    assert (Hall : Forall (settledIn libVar (shared p')) (requests p')).
    { apply schedule_settledIn. cbn [shared requests].
      apply Forall_forall. intros q Hq. apply repeat_spec in Hq.
      now subst q. }
    apply nth_error_In in Hi.
    pose proof (proj1 (Forall_forall _ _) Hall _ Hi) as Hhas. simpl in Hhas.
    destruct (JsMapFacts.has_get _ _ Hhas) as [cached Hget].
    exists cached. split; [exact Hget|].
    now apply getImportedVariable_warm.
  - intros v r1 Hcall.
    pose proof (getImportedVariable_cached _ _ _ _ Hcall) as Hget.
    split; [exact Hget|]. now apply getImportedVariable_warm.
  - intros v r1 Hcall.
    assert (Hget : JsMap.get (importedVariablesCache r1) key = Some v).
    { unfold CodeTs.getImportedVariable in Hcall. fold key in Hcall.
      destruct (JsMap.get (importedVariablesCache r) key) as [cached|] eqn:Hc.
      - injection Hcall as <- <-. exact Hc.
      - destruct (call (importVariableByKey key) r) as [[imported | e] r0];
          [|discriminate].
        injection Hcall as <- <-. apply JsMapFacts.get_set_same. }
    split; [exact Hget|].
    unfold CodeTs.getImportedVariable. fold key. now rewrite Hget.
Qed.

(** *** Paint rebinding *)

Lemma truthy_Some x : x <> ""%string -> truthy (Some x) = true.
Proof.
  intros Hx. simpl. apply String.eqb_neq in Hx. now rewrite Hx.
Qed.

Lemma processPaint_in_target webVariablesMap collectionId paint r :
  collectionId <> ""%string -> resolvesInto collectionId paint ->
  exists r1,
    processPaint webVariablesMap (Some collectionId) paint r = (Ok paint, r1).
Proof.
  intros Hc Hres. unfold processPaint.
  destruct (String.eqb (paint_type paint) "SOLID") eqn:Hty; simpl;
    [|now exists r].
  destruct (boundColorId paint) as [variableId|] eqn:Hb; simpl;
    [|now exists r].
  destruct (String.eqb variableId "") eqn:Hid; simpl; [now exists r|].
  apply String.eqb_eq in Hty. apply String.eqb_neq in Hid.
  destruct (Hres variableId r Hty Hb Hid) as [variable [r1 [Hw Hcoll]]].
  rewrite Hw. exists r1.
  apply String.eqb_neq in Hc. rewrite Hc. simpl.
  rewrite Hcoll, String.eqb_refl. reflexivity.
Qed.

Lemma promiseAll_unchanged {A} (f : A -> M A) (xs : list A) :
  Forall (fun x => forall r, exists r1, f x r = (Ok x, r1)) xs ->
  forall r, exists r1, promiseAll (map f xs) r = (Ok xs, r1).
Proof.
  induction 1 as [|x xs Hx _ IH]; intros r; simpl.
  - now exists r.
  - destruct (Hx r) as [r1 ->]. destruct (IH r1) as [r2 ->].
    now exists r2.
Qed.

Lemma paintsChanged_same paints : paintsChanged paints paints = false.
Proof.
  unfold paintsChanged.
  destruct (list_eq_dec Paint_eq_dec paints paints); congruence.
Qed.

(** C4: when the target collection is known and every bound solid paint
    of a slot resolves into it, the rebinding step returns every paint
    entry as it was and does not write the slot; a second run right after
    the first does the same, so the node stays as it was. *)
Theorem C4_rebinding_is_idempotent (node : SceneNode)
    (paintType : PaintType) (webVariablesMap : JsMap.t LibraryVariable)
    (collectionId : string) (r : Run) :
  collectionId <> ""%string ->
  (forall paints, getPaints node paintType = Some paints ->
                  Forall (resolvesInto collectionId) paints) ->
  exists r1 r2,
    (forall paints,
        getPaints node paintType = Some paints ->
        promiseAll (map (processPaint webVariablesMap (Some collectionId))
                        paints) r
        = (Ok paints, r1)) /\
    processPaints node paintType webVariablesMap (Some collectionId) r
    = (Ok tt, node, r1) /\
    processPaints node paintType webVariablesMap (Some collectionId) r1
    = (Ok tt, node, r2).
Proof.
  intros Hc Hres. unfold processPaints.
  destruct (getPaints node paintType) as [paints|] eqn:Hp.
  - assert (Hall : Forall (fun x => forall r, exists r1,
                processPaint webVariablesMap (Some collectionId) x r
                = (Ok x, r1)) paints).
    { eapply Forall_impl; [|exact (Hres paints eq_refl)].
      intros paint Hpaint r0. now apply processPaint_in_target. }
    destruct (promiseAll_unchanged _ _ Hall r) as [r1 H1].
    destruct (promiseAll_unchanged _ _ Hall r1) as [r2 H2].
    exists r1, r2. rewrite H1, H2, paintsChanged_same.
    repeat split. now intros ? [= <-].
  - exists r, r. repeat split. discriminate.
Qed.

(** C10: without a target collection the pipeline passes a null collection
    id, the test that skips variables of the target collection is false
    for every variable, and a bound solid paint whose variable resolves
    and whose name is in the catalog is rebound to the variable that
    [getImportedVariable] returns, whatever the collection of the variable
    it was bound to; with a target collection equal to that collection the
    same paint is left as it is. *)
Theorem C10_no_target_no_skip (webVariablesMap : JsMap.t LibraryVariable)
    (paint : Paint) (variableId : string) (variable imported : Var)
    (libVar : LibraryVariable) (r r1 r2 : Run) :
  paint_type paint = "SOLID"%string ->
  boundColorId paint = Some variableId -> variableId <> ""%string ->
  withRetryDefault (getVariableById variableId) r = (Ok (Some variable), r1) ->
  JsMap.get webVariablesMap (var_name variable) = Some libVar ->
  getImportedVariable libVar r1 = (Ok (Some imported), r2) ->
  option_map coll_id (@None VariableCollection) = None /\
  (forall v, truthy None && isFromWebCollection v None = false) /\
  processPaint webVariablesMap (option_map coll_id None) paint r
  = (Ok (setBoundVariableForPaint paint imported), r2) /\
  (forall web,
      coll_id web = variableCollectionId variable -> coll_id web <> ""%string ->
      processPaint webVariablesMap (option_map coll_id (Some web)) paint r
      = (Ok paint, r1)).
Proof.
  intros Hty Hb Hid Hw Hget Himp.
  split; [reflexivity|]. split; [reflexivity|].
  pose proof Hid as Hid'. apply String.eqb_neq in Hid'.
  split.
  - unfold processPaint. rewrite Hty, Hb. simpl. rewrite Hid'. simpl.
    rewrite Hw. simpl. rewrite Hget, Himp. reflexivity.
  - intros web Hweb Hne.
    unfold processPaint. rewrite Hty, Hb. simpl. rewrite Hid'. simpl.
    rewrite Hw. apply String.eqb_neq in Hne. rewrite Hne. simpl.
    rewrite Hweb, String.eqb_refl. reflexivity.
Qed.

(** *** What paint rebinding leaves alone *)

Lemma modeCalls_app es es' :
  modeCalls (es ++ es') = modeCalls es ++ modeCalls es'.
Proof. apply filter_app. Qed.

Lemma modeCalls_backoff a k d : modeCalls (backoff a k d) = [].
Proof.
  revert d. induction k as [|k IH]; intros d; simpl; auto.
Qed.

Lemma quiet_withRetry T (fn : Remote T) retries delayMs :
  quiet (withRetry fn retries delayMs).
Proof.
  intros r.
  destruct (withRetry_shape T fn _ retries delayMs r eq_refl)
    as [k [_ [He _]]].
  rewrite He, modeCalls_app, modeCalls_backoff. apply app_nil_r.
Qed.

Lemma quiet_getImportedVariable libVar : quiet (getImportedVariable libVar).
Proof.
  intros r. unfold getImportedVariable.
  destruct (JsMap.has (importedVariablesCache r) (lib_key libVar));
    [reflexivity|].
  pose proof (quiet_withRetry _ (importVariableByKey (lib_key libVar))
                3%Z 1000%Z r) as Hq.
  unfold withRetryDefault.
  destruct (withRetry (importVariableByKey (lib_key libVar)) 3 1000 r)
    as [[imported | e] r1]; simpl in *; [assumption|].
  rewrite modeCalls_app. simpl. now rewrite app_nil_r.
Qed.

Lemma quiet_processPaint webVariablesMap webCollectionId paint :
  quiet (processPaint webVariablesMap webCollectionId paint).
Proof.
  intros r. unfold processPaint.
  destruct (negb (String.eqb (paint_type paint) "SOLID")
            || negb (truthy (boundColorId paint))); [reflexivity|].
  destruct (boundColorId paint) as [variableId|]; [|reflexivity].
  pose proof (quiet_withRetry _ (getVariableById variableId) 3%Z 1000%Z r)
    as Hq.
  unfold withRetryDefault.
  destruct (withRetry (getVariableById variableId) 3 1000 r)
    as [[[variable|] | e] r1]; simpl in Hq; try assumption.
  destruct (truthy webCollectionId
            && isFromWebCollection variable webCollectionId);
    [assumption|].
  destruct (JsMap.get webVariablesMap (var_name variable)) as [libVar|];
    [|assumption].
  pose proof (quiet_getImportedVariable libVar r1) as Hi.
  destruct (getImportedVariable libVar r1) as [[[imported|] | e] r2];
    simpl in *; congruence.
Qed.

Lemma quiet_promiseAll {A} (ps : list (M A)) :
  Forall quiet ps -> quiet (promiseAll ps).
Proof.
  induction 1 as [|p ps Hp _ IH]; intros r; simpl; [reflexivity|].
  specialize (Hp r). destruct (p r) as [x r1].
  specialize (IH r1). destruct (promiseAll ps r1) as [xs r2].
  simpl in *. congruence.
Qed.

Lemma processPaints_frame node paintType webVariablesMap webCollectionId r :
  let '(_, node', r') :=
    processPaints node paintType webVariablesMap webCollectionId r in
  explicitVariableModes node' = explicitVariableModes node /\
  parent node' = parent node /\
  modeCalls (effects r') = modeCalls (effects r).
Proof.
  unfold processPaints.
  destruct (getPaints node paintType) as [paints|]; [|auto].
  assert (Hq : quiet (promiseAll
                (map (processPaint webVariablesMap webCollectionId) paints))).
  { apply quiet_promiseAll, Forall_forall. intros p Hp.
    apply in_map_iff in Hp as [paint [<- _]]. apply quiet_processPaint. }
  specialize (Hq r).
  destruct (promiseAll (map (processPaint webVariablesMap webCollectionId)
                            paints) r) as [[updatedPaints | e] r1];
    simpl in Hq; [|auto].
  destruct (paintsChanged paints updatedPaints); [|auto].
  destruct paintType; simpl; auto.
Qed.


(** *** Mode reassignment *)

Lemma fetchCollection_total collId r :
  exists coll r1, fetchCollection collId r = (Ok coll, r1).
Proof.
  unfold fetchCollection.
  destruct (withRetryDefault (getVariableCollectionById collId) r)
    as [[coll | e] r1]; eauto.
Qed.

Lemma promiseAll_total {K A} (f : K -> M A) (ks : list K) :
  (forall k r, exists a r1, f k r = (Ok a, r1)) ->
  forall r, exists xs r1,
    promiseAll (map f ks) r = (Ok xs, r1) /\
    Forall2 (fun k a => exists ra rb, f k ra = (Ok a, rb)) ks xs.
Proof.
  intros Hf. induction ks as [|k ks IH]; intros r; simpl.
  - exists [], r. split; [reflexivity | constructor].
  - destruct (Hf k r) as [a [r1 Ha]]. rewrite Ha.
    destruct (IH r1) as [xs [r2 [Hxs Hall]]]. rewrite Hxs.
    exists (a :: xs), r2. split; [reflexivity|].
    constructor; [now exists r, r1 | assumption].
Qed.

Lemma setModes_setModes node m m' :
  setModes (setModes node m) m' = setModes node m'.
Proof. reflexivity. Qed.

Lemma setModes_same node m :
  explicitVariableModes node = m -> setModes node m = node.
Proof. destruct node; simpl. now intros <-. Qed.

Lemma clearAll_spec collections :
  forall node r modes,
    explicitVariableModes node = Some modes ->
    clearAll collections node r
    = (setModes node
         (Some (fold_left (fun m k => JsMap.delete m k)
                          (resolvedIds collections) modes)),
       mkRun (host r) (importedVariablesCache r)
             (effects r ++ map ClearMode (resolvedIds collections))).
Proof.
  unfold clearAll.
  induction collections as [|[c|] cs IH]; intros node r modes Hm.
  - simpl. rewrite app_nil_r, setModes_same by assumption.
    now destruct r.
  - cbn [fold_left fst snd].
    unfold clearExplicitVariableModeForCollection at 2.
    rewrite Hm. cbn [option_map].
    rewrite (IH _ _ (JsMap.delete modes (coll_id c))) by reflexivity.
    rewrite setModes_setModes. cbn [resolvedIds flat_map app map fold_left].
    cbn [emit host importedVariablesCache effects].
    rewrite <- app_assoc. reflexivity.
  - cbn [fold_left]. now apply IH.
Qed.

Lemma setAll_spec web modeIds :
  forall node r modes,
    explicitVariableModes node = Some modes ->
    setAll web modeIds node r
    = (setModes node
         (Some (fold_left (fun m v => JsMap.set m (coll_id web) v)
                          modeIds modes)),
       mkRun (host r) (importedVariablesCache r)
             (effects r ++ map (SetMode (coll_id web)) modeIds)).
Proof.
  unfold setAll.
  induction modeIds as [|v vs IH]; intros node r modes Hm.
  - simpl. rewrite app_nil_r, setModes_same by assumption.
    now destruct r.
  - cbn [fold_left fst snd].
    unfold setExplicitVariableModeForCollection at 2.
    rewrite Hm.
    rewrite (IH _ _ (JsMap.set modes (coll_id web) v)) by reflexivity.
    rewrite setModes_setModes. cbn [map fold_left].
    cbn [emit host importedVariablesCache effects].
    rewrite <- app_assoc. reflexivity.
Qed.

Lemma get_after_sets (k : string) (vs : list string) :
  forall (m : JsMap.t string),
    vs <> [] ->
    JsMap.get (fold_left (fun m v => JsMap.set m k v) vs m) k
    = Some (last vs ""%string).
Proof.
  intros m Hne. destruct (exists_last Hne) as [front [v ->]].
  rewrite fold_left_app, last_last. simpl.
  apply JsMapFacts.get_set_same.
Qed.

Lemma get_other_after_sets (k k' : string) (vs : list string) :
  k <> k' ->
  forall (m : JsMap.t string),
    JsMap.get (fold_left (fun m v => JsMap.set m k v) vs m) k'
    = JsMap.get m k'.
Proof.
  intros Hne. induction vs as [|v vs IH]; intros m; [reflexivity|].
  cbn [fold_left]. rewrite IH. now apply JsMapFacts.get_set_other.
Qed.

Lemma get_after_deletes (k : string) (ks : list string) :
  forall (m : JsMap.t string),
    In k ks \/ JsMap.get m k = None ->
    JsMap.get (fold_left (fun m k => JsMap.delete m k) ks m) k = None.
Proof.
  induction ks as [|k0 ks IH]; intros m H; cbn [fold_left].
  - destruct H as [[] | H]; assumption.
  - apply IH. destruct H as [[-> | Hin] | Hnone].
    + right. apply JsMapFacts.get_delete_same.
    + now left.
    + right. now apply JsMapFacts.get_delete_none.
Qed.

Lemma In_resolvedIds c collections :
  In (Some c) collections -> In (coll_id c) (resolvedIds collections).
Proof.
  intros Hin. unfold resolvedIds. apply in_flat_map.
  exists (Some c). split; [assumption | now left].
Qed.

(** C7 (amended): for a node with a non-empty explicit mapping and a
    resolved target collection, the step looks up every collection of the
    mapping, clears the mode of each one that was found, in mapping order,
    and then sets on the target collection every mode id of the original
    mapping, in mapping order.  A collection holds one explicit mode, so
    the target ends with the last mode id of the mapping (the mode id of
    the mapping when it has one entry), and every collection that was
    found, other than the target, has no explicit mode left. *)
Theorem C7_mode_reassignment (node : SceneNode) (modes : JsMap.t string)
    (web : VariableCollection) (r : Run) :
  explicitVariableModes node = Some modes -> modes <> [] ->
  exists collections r1 node' r' modes',
    promiseAll (map fetchCollection (JsMap.keys modes)) r
    = (Ok collections, r1) /\
    Forall2 (fun collId coll =>
               exists ra rb, fetchCollection collId ra = (Ok coll, rb))
            (JsMap.keys modes) collections /\
    reassignVariableModes node (Some web) r = (Ok tt, node', r') /\
    effects r'
    = effects r1 ++ map ClearMode (resolvedIds collections)
                 ++ map (SetMode (coll_id web)) (JsMap.values modes) /\
    explicitVariableModes node' = Some modes' /\
    JsMap.get modes' (coll_id web) = Some (last (JsMap.values modes) ""%string) /\
    (forall c, In (Some c) collections -> coll_id c <> coll_id web ->
               JsMap.get modes' (coll_id c) = None) /\
    (forall collId modeId,
        modes = [(collId, modeId)] ->
        JsMap.get modes' (coll_id web) = Some modeId).
Proof.
  intros Hm Hne.
  destruct (promiseAll_total fetchCollection (JsMap.keys modes)
              fetchCollection_total r) as [collections [r1 [Hall Hrel]]].
  set (cleared := fold_left (fun m k => JsMap.delete m k)
                            (resolvedIds collections) modes).
  set (modes' := fold_left (fun m v => JsMap.set m (coll_id web) v)
                           (JsMap.values modes) cleared).
  assert (Hvals : JsMap.values modes <> []).
  { destruct modes; [contradiction | discriminate]. }
  assert (Hlast : JsMap.get modes' (coll_id web)
                  = Some (last (JsMap.values modes) ""%string)).
  { now apply get_after_sets. }
  exists collections, r1, (setModes node (Some modes')).
  eexists. exists modes'.
  split; [exact Hall|]. split; [exact Hrel|]. split.
  - unfold reassignVariableModes. rewrite Hm.
    replace (length (JsMap.keys modes) =? 0) with false
      by (destruct modes; [contradiction | reflexivity]).
    rewrite Hall, (clearAll_spec _ _ _ modes Hm). fold cleared.
    rewrite (setAll_spec web _ (setModes node (Some cleared)) _ cleared
                         eq_refl).
    rewrite setModes_setModes. reflexivity.
  - cbn [effects]. rewrite <- app_assoc.
    split; [reflexivity|]. split; [reflexivity|]. split; [exact Hlast|].
    split.
    + intros c Hin Hc. unfold modes'.
      rewrite get_other_after_sets by congruence.
      apply get_after_deletes. left. now apply In_resolvedIds.
    + intros collId modeId ->. exact Hlast.
Qed.

End PipelineFacts.

(** ** Concrete runs *)

Section ConcreteRuns.
Import RequestQueue RequestQueueFacts.
Local Open Scope string_scope.
Local Open Scope list_scope.

Lemma threeSubmitted_reachable : reachable 2 threeSubmitted.
Proof.
  apply (run_reachable 2 [Enqueue; Enqueue; Enqueue] (create 2));
    [constructor | reflexivity].
Qed.

Lemma oneRunning_reachable : reachable 1 oneRunning.
Proof.
  apply (run_reachable 1 [Enqueue] (create 1)); [constructor | reflexivity].
Qed.

Lemma oneDone_reachable : reachable 1 oneDone.
Proof.
  apply (run_reachable 1 [Enqueue; Settle 0 Succeeded] (create 1));
    [constructor | reflexivity].
Qed.

Lemma oneRunningOneWaiting_reachable : reachable 1 oneRunningOneWaiting.
Proof.
  apply (run_reachable 1 [Enqueue; Enqueue] (create 1));
    [constructor | reflexivity].
Qed.

(** Three tasks submitted to a queue of limit 2: two run, one waits. *)
Lemma C1_bounded_occupancy_witness :
  (0 <= 2)%Z /\ reachable 2 threeSubmitted /\
  (activeCount threeSubmitted <= 2)%Z /\
  activeCount threeSubmitted
  = Z.of_nat (length (inFlight threeSubmitted)) /\
  (queue threeSubmitted <> [] ->
   activeCount threeSubmitted
   = Z.min 2 (Z.of_nat (length (queue threeSubmitted))
              + activeCount threeSubmitted)) /\
  (forall t o h rest,
      queue threeSubmitted = h :: rest -> In t (inFlight threeSubmitted) ->
      exists s', step (Settle t o) threeSubmitted = Some s' /\
                 queue s' = rest /\
                 inFlight s'
                 = remove Nat.eq_dec t (inFlight threeSubmitted) ++ [h] /\
                 activeCount s' = activeCount threeSubmitted).
Proof.
  assert (H0 : (0 <= 2)%Z) by lia.
  split; [exact H0|]. split; [exact threeSubmitted_reachable|].
  exact (C1_bounded_occupancy 2 threeSubmitted H0 threeSubmitted_reachable).
Defined.

(** A poll while the task runs, then a poll after it has settled. *)
Lemma C5_drain_completeness_witness :
  Forall (reachable 1) [oneRunning; oneDone] /\
  waitUntilEmpty [oneRunning; oneDone] = Some oneDone /\
  queue oneDone = [] /\ activeCount oneDone = 0%Z /\
  forall t, t < submitted oneDone -> terminal oneDone t.
Proof.
  assert (Hall : Forall (reachable 1) [oneRunning; oneDone]).
  { repeat constructor; [exact oneRunning_reachable | exact oneDone_reachable]. }
  assert (Hw : waitUntilEmpty [oneRunning; oneDone] = Some oneDone)
    by reflexivity.
  split; [exact Hall|]. split; [exact Hw|].
  exact (proj2 (C5_drain_completeness 1 _ oneDone Hall Hw)).
Defined.


(** *** Retry *)

Lemma busyHost_alwaysRateLimited id :
  alwaysRateLimited (figma := busyHost) (getVariableById id).
Proof.
  intros w. exists rateLimited, w. split; reflexivity.
Qed.

(** With [retries = 3] and [delayMs = 1000] a rate-limited operation is
    called four times, not three. *)
Lemma C2_counterexample :
  let res := withRetry (figma := busyHost) (getVariableById "VariableID:web")
                       3 1000 (freshRun busyHost tt) in
  fst res = Err rateLimited /\
  attempts (effects (snd res)) = 4 /\
  attempts (effects (snd res)) <> 3 /\
  waits (effects (snd res)) = [1000; 2000; 4000]%Z.
Proof.
  vm_compute. repeat split. discriminate.
Qed.

Lemma C2_retry_bound_witness :
  (0 <= 3)%Z /\
  alwaysRateLimited (figma := busyHost) (getVariableById "VariableID:web") /\
  exists e w r',
    withRetry (figma := busyHost) (getVariableById "VariableID:web") 3 1000
              (freshRun busyHost tt) = (Err e, r') /\
    invoke (getVariableById "VariableID:web") w = (Err e, host r') /\
    effects r'
    = effects (freshRun busyHost tt)
      ++ backoff (GetVariableById "VariableID:web") (Z.to_nat 3) 1000 /\
    attempts (backoff (GetVariableById "VariableID:web") (Z.to_nat 3) 1000)
    = Z.to_nat 3 + 1 /\
    waits (backoff (GetVariableById "VariableID:web") (Z.to_nat 3) 1000)
    = doubling (Z.to_nat 3) 1000.
Proof.
  assert (H0 : (0 <= 3)%Z) by lia.
  split; [exact H0|].
  split; [exact (busyHost_alwaysRateLimited "VariableID:web")|].
  exact (proj1 (C2_retry_bound (figma := busyHost) _
                  (getVariableById "VariableID:web") 3 1000
                  (freshRun busyHost tt) H0)
               (busyHost_alwaysRateLimited "VariableID:web")).
Defined.

(** *** The import cache *)

(** Two tasks ask for the same key; both read the cache before either
    import has returned, and the remote import runs twice. *)
Lemma C3_counterexample :
  let p := schedule (figma := calmHost) [0; 1; 0; 1]
             (mkPool (freshRun calmHost tt) [Fresh primary; Fresh primary]) in
  importCalls "key:primary" (shared p) = 2 /\
  ~ importCalls "key:primary" (shared p) <= 1 /\
  requests p = [Returned (Some webVariable); Returned (Some webVariable)] /\
  importedVariablesCache (shared p) = [("key:primary", webVariable)].
Proof.
  vm_compute. repeat split. intros H. inversion H as [|? H1]. inversion H1.
Qed.

Lemma C3_import_cache_witness :
  let p' := schedule (figma := calmHost) [0; 1; 0; 1]
              (mkPool (freshRun calmHost tt) (repeat (Fresh primary) 2)) in
  (exists i v, nth_error (requests p') i = Some (Returned (Some v))) /\
  importCalls "key:primary" (shared p')
  <= importCalls "key:primary" (freshRun calmHost tt) + 4 * 2 /\
  exists cached,
    JsMap.get (importedVariablesCache (shared p')) "key:primary" = Some cached /\
    getImportedVariable primary (shared p') = (Ok (Some cached), shared p').
Proof.
  intros p'.
  assert (Hret : exists i v,
             nth_error (requests p') i = Some (Returned (Some v))).
  { exists 0, webVariable. reflexivity. }
  split; [exact Hret|].
  destruct (C3_import_cache (figma := calmHost) primary 2 [0; 1; 0; 1]
              (freshRun calmHost tt)) as [Hbound [Hwarm _]].
  split; [exact Hbound | exact (Hwarm Hret)].
Defined.

(** *** Paint rebinding *)

Lemma calmHost_resolves (r : @Run calmHost) :
  withRetryDefault (figma := calmHost) (getVariableById "VariableID:web") r
  = (Ok (Some webVariable),
     mkRun (host r) (importedVariablesCache r)
           (effects r ++ [Attempt (GetVariableById "VariableID:web")])).
Proof.
  unfold withRetryDefault. rewrite withRetry_step. reflexivity.
Qed.

Lemma card_resolvesInto paints :
  getPaints card Fills = Some paints ->
  Forall (resolvesInto (figma := calmHost) "VariableCollectionId:web") paints.
Proof.
  intros [= <-]. constructor; [|constructor].
  intros variableId r _ [= <-] _.
  exists webVariable. eexists. split; [apply calmHost_resolves | reflexivity].
Qed.

Lemma C4_rebinding_is_idempotent_witness :
  "VariableCollectionId:web" <> "" /\
  exists r1 r2,
    (forall paints,
        getPaints card Fills = Some paints ->
        promiseAll (map (processPaint (figma := calmHost) webCatalog
                                      (Some "VariableCollectionId:web"))
                        paints) (freshRun calmHost tt)
        = (Ok paints, r1)) /\
    processPaints card Fills webCatalog (Some "VariableCollectionId:web")
                  (freshRun calmHost tt)
    = (Ok tt, card, r1) /\
    processPaints card Fills webCatalog (Some "VariableCollectionId:web") r1
    = (Ok tt, card, r2).
Proof.
  assert (Hne : "VariableCollectionId:web" <> "") by discriminate.
  split; [exact Hne|].
  exact (C4_rebinding_is_idempotent (figma := calmHost) card Fills webCatalog
           "VariableCollectionId:web" (freshRun calmHost tt) Hne
           card_resolvesInto).
Defined.

(** The paint is bound to the Web variable already; with no target
    collection it is rebound to the imported variable all the same. *)
Lemma C10_no_target_no_skip_witness :
  let r := freshRun calmHost tt in
  let r1 := mkRun (figma := calmHost) tt []
              [Attempt (GetVariableById "VariableID:web")] in
  let r2 := mkRun (figma := calmHost) tt [("key:primary", webVariable)]
              [Attempt (GetVariableById "VariableID:web");
               Attempt (ImportVariableByKey "key:primary")] in
  variableCollectionId webVariable = coll_id webCollectionOfHost /\
  processPaint (figma := calmHost) webCatalog (option_map coll_id None)
               (solid "VariableID:web") r
  = (Ok (setBoundVariableForPaint (solid "VariableID:web") webVariable), r2) /\
  processPaint (figma := calmHost) webCatalog
               (option_map coll_id (Some webCollectionOfHost))
               (solid "VariableID:web") r
  = (Ok (solid "VariableID:web"), r1).
Proof.
  intros r r1 r2. split; [reflexivity|].
  destruct (C10_no_target_no_skip (figma := calmHost) webCatalog
              (solid "VariableID:web") "VariableID:web" webVariable
              webVariable primary r r1 r2)
    as [_ [_ [Hrebound Hskip]]];
    try reflexivity; try discriminate.
  split; [exact Hrebound|].
  apply Hskip; [reflexivity | discriminate].
Defined.


(** The fill of the nested layer is rebound, its modes are kept. *)
Example nestedLayer_processed :
  let '(done, node', _) :=
    processSingleNode (figma := calmHost) nestedLayer webCatalog
                      (Some webCollectionOfHost) (freshRun calmHost tt) in
  done = Ok tt /\
  fills node' = Some [solid "VariableID:web"] /\
  strokes node' = Some [solid "VariableID:web"] /\
  explicitVariableModes node' = Some twoModes.
Proof.
  vm_compute. repeat split.
Qed.

(** *** Mode reassignment *)

(** Two overrides, 1:0 and 1:1; only 1:1 is left on the target. *)
Lemma C7_counterexample :
  let '(done, node', _) :=
    reassignVariableModes (figma := calmHost) card (Some webCollectionOfHost)
                          (freshRun calmHost tt) in
  Tree.isNestedInInstance card = false /\
  explicitVariableModes card
  = Some [("VariableCollectionId:a", "1:0"); ("VariableCollectionId:b", "1:1")] /\
  done = Ok tt /\
  explicitVariableModes node' = Some [("VariableCollectionId:web", "1:1")] /\
  (forall m, explicitVariableModes node' = Some m ->
             JsMap.get m "VariableCollectionId:web" <> Some "1:0").
Proof.
  vm_compute. repeat split. intros m [= <-]. discriminate.
Qed.

Lemma C7_mode_reassignment_witness :
  explicitVariableModes card = Some twoModes /\ twoModes <> [] /\
  exists node' r' modes',
    reassignVariableModes (figma := calmHost) card (Some webCollectionOfHost)
                          (freshRun calmHost tt)
    = (Ok tt, node', r') /\
    explicitVariableModes node' = Some modes' /\
    JsMap.get modes' (coll_id webCollectionOfHost)
    = Some (last (JsMap.values twoModes) "").
Proof.
  assert (Hm : explicitVariableModes card = Some twoModes) by reflexivity.
  assert (Hne : twoModes <> []) by discriminate.
  split; [exact Hm|]. split; [exact Hne|].
  destruct (C7_mode_reassignment (figma := calmHost) card twoModes
              webCollectionOfHost (freshRun calmHost tt) Hm Hne)
    as [collections [r1 [node' [r' [modes' [_ [_ [Hre [_ [Hmodes [Hget _]]]]]]]]]]].
  exists node', r', modes'. auto.
Defined.

End ConcreteRuns.


(* ===================================================================== *)
(** * More properties                                                     *)
(* ===================================================================== *)

(** ** The forest *)

Module ForestFacts.
Import Tree TreeFacts Forest.

Lemma preorder_children (node : SceneNode) :
  preorder node = node :: preorderForest (childrenOf node).
Proof.
  destruct node as [n ty p f s m cs]. unfold childrenOf, preorderForest.
  simpl. f_equal. destruct cs as [l|]; [|reflexivity].
  induction l as [|c l IH]; [reflexivity|]. simpl. now rewrite IH.
Qed.

Lemma preorderForest_app (f g : list SceneNode) :
  preorderForest (f ++ g) = preorderForest f ++ preorderForest g.
Proof. apply flat_map_app. Qed.

(** The nodes of a forest are its roots and the nodes of the forest of
    their children. *)
Lemma preorderForest_roots (forest : list SceneNode) :
  Permutation (preorderForest forest)
              (forest ++ preorderForest (flat_map childrenOf forest)).
Proof.
  induction forest as [|x f IH]; [reflexivity|].
  change (preorderForest (x :: f)) with (preorder x ++ preorderForest f).
  rewrite preorder_children. cbn [flat_map app].
  rewrite preorderForest_app. apply perm_skip.
  etransitivity; [apply Permutation_app_head; exact IH|].
  rewrite !app_assoc. apply Permutation_app_tail, Permutation_app_comm.
Qed.

Lemma forestSize_children (forest : list SceneNode) :
  forestSize forest
  = length forest + forestSize (flat_map childrenOf forest).
Proof.
  induction forest as [|x f IH]; [reflexivity|].
  cbn [flat_map length]. rewrite forestSize_app.
  change (forestSize (x :: f)) with (nodeSize x + forestSize f).
  rewrite nodeSize_children, IH. lia.
Qed.

Lemma bfs_preorder (n : nat) :
  forall forest,
    forestSize forest <= n ->
    Permutation (bfsLoop forest []) (preorderForest forest).
Proof.
  induction n as [|n IH]; intros forest Hn.
  - destruct forest as [|x f].
    + simp bfsLoop. reflexivity.
    + rewrite forestSize_children in Hn. cbn [length] in Hn. lia.
  - rewrite bfsLoop_levelwise.
    etransitivity; [|apply Permutation_sym, preorderForest_roots].
    apply Permutation_app_head.
    destruct forest as [|x f]; [simp bfsLoop; reflexivity|].
    apply IH. rewrite forestSize_children in Hn. cbn [length] in Hn. lia.
Qed.

(** X1: the flattener returns exactly the nodes of the selected forest, each
    as many times as it has places in the forest: its result is a
    rearrangement of the depth-first listing. *)
Theorem X1_flattener_keeps_every_node (selection : list SceneNode) :
  Permutation (getAllNodesInSelection selection) (preorderForest selection).
Proof.
  apply (bfs_preorder (forestSize selection)). apply le_n.
Qed.

(** X2: the result of the flattener starts with the selected nodes, in the
    order of the selection, and is empty only for an empty selection; so
    after a non-empty selection the test [allNodes.length === 0] of [main]
    is false. *)
Theorem X2_flattener_starts_with_the_selection (selection : list SceneNode) :
  (exists deeper, getAllNodesInSelection selection = selection ++ deeper) /\
  (getAllNodesInSelection selection = [] <-> selection = []) /\
  (length selection <= length (getAllNodesInSelection selection)).
Proof.
  unfold getAllNodesInSelection. rewrite bfsLoop_levelwise.
  split; [eexists; reflexivity|]. split.
  - split.
    + intros H. now apply app_eq_nil in H as [H _].
    + intros ->. reflexivity.
  - rewrite length_app. lia.
Qed.

Lemma hasInstanceFrom_types (current : BaseNode) :
  hasInstanceFrom current
  = existsb (fun ty => String.eqb ty "INSTANCE") (typesFrom current).
Proof.
  revert current.
  fix IH 1. intros [ty up]. cbn [hasInstanceFrom typesFrom existsb].
  cbn [base_type base_parent].
  destruct (String.eqb ty "INSTANCE"); [reflexivity|].
  destruct up as [up|]; [apply IH | reflexivity].
Qed.

(** X3: [isNestedInInstance] is true exactly when one of the ancestors of
    the node is of type INSTANCE, however far up; the type of the node
    itself, its children and its paints play no part. *)
Theorem X3_nested_means_an_instance_ancestor (node : SceneNode) :
  (isNestedInInstance node = true <-> In "INSTANCE"%string (ancestorTypes node)) /\
  (forall name ty fs ss ms cs,
      isNestedInInstance (mkSceneNode name ty (parent node) fs ss ms cs)
      = isNestedInInstance node).
Proof.
  split; [|reflexivity].
  unfold isNestedInInstance, ancestorTypes.
  destruct (parent node) as [current|]; [|split; [discriminate | intros []]].
  rewrite hasInstanceFrom_types, existsb_exists. split.
  - intros [ty [Hin Hty]]. apply String.eqb_eq in Hty. now subst ty.
  - intros Hin. exists "INSTANCE"%string. split; [assumption | reflexivity].
Qed.

End ForestFacts.

(** ** The scheduler: order of admission and batches *)

Module RequestQueueMore.
Import RequestQueue RequestQueueFacts Admission.

Lemma next_started_queue s :
  length (started (next s)) + length (queue (next s))
  = length (started s) + length (queue s) /\
  (queue s = seq (length (started s)) (length (queue s)) ->
   queue (next s) = seq (length (started (next s))) (length (queue (next s)))).
Proof.
  unfold next, started.
  destruct ((maxConcurrency s <=? activeCount s)%Z || (length (queue s) =? 0));
    [auto|].
  destruct (queue s) as [|fn rest] eqn:Hq; [rewrite ?Hq; auto|].
  cbn [queue inFlight settled]. rewrite ?Hq, !length_app. cbn [length].
  split; [lia|].
  cbn [seq]. intros [= Hfn Hrest]. rewrite Hrest at 1. f_equal. lia.
Qed.

Lemma fifo_invariant C s :
  reachable C s -> queue s = seq (length (started s)) (length (queue s)).
Proof.
  induction 1 as [|e s s' Hr IH Hstep]; [reflexivity|].
  pose proof (reachable_Inv _ _ Hr) as HI.
  pose proof (Inv_work _ _ HI) as Hw.
  destruct e as [|t o]; simpl in Hstep.
  - injection Hstep as <-. unfold enqueue.
    apply next_started_queue. unfold started. cbn [queue inFlight settled].
    rewrite (length_app (queue s)), seq_app. cbn [length seq].
    unfold started in IH. rewrite <- IH. f_equal. f_equal.
    rewrite length_app, length_map. lia.
  - destruct (existsb (Nat.eqb t) (inFlight s)) eqn:Hex; [|discriminate].
    injection Hstep as <-. apply existsb_eqb_In in Hex.
    unfold onFinally. apply next_started_queue.
    unfold started in *. cbn [queue inFlight settled map length].
    pose proof (remove_NoDup_length t _ (Inv_inFlight_NoDup _ _ HI) Hex) as Hl.
    rewrite length_app in *. cbn [length].
    replace (length (remove Nat.eq_dec t (inFlight s))
             + S (length (map fst (settled s))))
      with (length (inFlight s) + length (map fst (settled s))) by lia.
    exact IH.
Qed.

Lemma NoDup_app_apart {A} (l l' : list A) (a : A) :
  NoDup (l ++ l') -> In a l -> In a l' -> False.
Proof.
  intros Hnd Hl Hl'. apply in_split in Hl' as [l1 [l2 ->]].
  rewrite app_assoc in Hnd. apply NoDup_remove_2 in Hnd.
  apply Hnd. apply in_or_app. left. apply in_or_app. now left.
Qed.

(** X4: the queue is first in, first out.  In every reachable state the
    pending list holds the most recently submitted tasks in submission
    order, so its head is the oldest waiting task, and every task that has
    been started was submitted before every task that still waits. *)
Theorem X4_admission_is_first_in_first_out (C : Z) (s : State) :
  reachable C s ->
  queue s = seq (submitted s - length (queue s)) (length (queue s)) /\
  (forall t u, In t (started s) -> In u (queue s) -> t < u).
Proof.
  intros Hr. pose proof (fifo_invariant C s Hr) as Hq.
  pose proof (reachable_Inv _ _ Hr) as HI.
  pose proof (Inv_work _ _ HI) as Hw.
  assert (Hlen : length (started s) = submitted s - length (queue s)).
  { unfold started. rewrite length_app, length_map. lia. }
  split; [now rewrite <- Hlen|].
  intros t u Ht Hu. rewrite Hq in Hu. apply in_seq in Hu.
  destruct HI as [_ _ _ _ Hp].
  pose proof (Permutation_NoDup (Permutation_sym Hp) (seq_NoDup _ _)) as Hnd.
  assert (Hts : In t (seq 0 (submitted s))).
  { apply (Permutation_in t Hp). apply in_or_app. now right. }
  apply in_seq in Hts.
  destruct (Nat.lt_ge_cases t (length (started s))) as [Hlt | Hge]; [lia|].
  exfalso. apply (NoDup_app_apart _ _ t Hnd); [|exact Ht].
  rewrite Hq. apply in_seq. lia.
Qed.

(** X5: no task is lost and none is run twice.  In every reachable state
    each submitted task is at exactly one place: pending, running or
    settled, and it is settled at most once. *)
Theorem X5_every_task_is_at_one_place (C : Z) (s : State) :
  reachable C s ->
  NoDup (queue s ++ inFlight s ++ map fst (settled s)) /\
  (forall t, t < submitted s <->
             In t (queue s) \/ In t (inFlight s) \/ terminal s t) /\
  length (queue s) + length (inFlight s) + length (settled s) = submitted s.
Proof.
  intros Hr. pose proof (reachable_Inv _ _ Hr) as HI.
  pose proof (Inv_work _ _ HI) as Hw. destruct HI as [_ _ _ _ Hp].
  split; [|split; [|exact Hw]].
  - exact (Permutation_NoDup (Permutation_sym Hp) (seq_NoDup _ _)).
  - intros t. split.
    + intros Ht.
      assert (Hin : In t (queue s ++ inFlight s ++ map fst (settled s))).
      { apply (Permutation_in t (Permutation_sym Hp)), in_seq. lia. }
      apply in_app_or in Hin as [Hin | Hin]; [now left|].
      apply in_app_or in Hin as [Hin | Hin]; [now right; left|].
      right; right. apply in_map_iff in Hin as [[t' o] [Heq Hin]].
      simpl in Heq. subst t'. now exists o.
    + intros Hin.
      assert (Hall : In t (queue s ++ inFlight s ++ map fst (settled s))).
      { apply in_or_app. destruct Hin as [Hin | [Hin | [o Hin]]].
        - now left.
        - right. apply in_or_app. now left.
        - right. apply in_or_app. right.
          apply in_map_iff. now exists (t, o). }
      apply (Permutation_in t Hp), in_seq in Hall. lia.
Qed.

Lemma run_app es es' s :
  run (es ++ es') s
  = match run es s with Some s' => run es' s' | None => None end.
Proof.
  revert s. induction es as [|e es IH]; intros s; simpl; [reflexivity|].
  destruct (step e s); [apply IH | reflexivity].
Qed.

Lemma enqueue_batch (C : Z) (K : nat) :
  enqueue (mkState C
             (seq (Nat.min (Z.to_nat C) K) (K - Nat.min (Z.to_nat C) K))
             (Z.of_nat (Nat.min (Z.to_nat C) K))
             (seq 0 (Nat.min (Z.to_nat C) K)) [] K)
  = mkState C
      (seq (Nat.min (Z.to_nat C) (S K)) (S K - Nat.min (Z.to_nat C) (S K)))
      (Z.of_nat (Nat.min (Z.to_nat C) (S K)))
      (seq 0 (Nat.min (Z.to_nat C) (S K))) [] (S K).
Proof.
  unfold enqueue, next.
  cbn [maxConcurrency queue activeCount inFlight settled submitted].
  destruct (Nat.lt_ge_cases K (Z.to_nat C)) as [Hlt | Hge].
  - rewrite (Nat.min_r _ K), (Nat.min_r _ (S K)) by lia.
    replace (K - K) with 0 by lia. replace (S K - S K) with 0 by lia.
    change (seq K 0) with (@nil nat). change (seq (S K) 0) with (@nil nat).
    cbn [app length].
    replace (C <=? Z.of_nat K)%Z with false by (symmetry; apply Z.leb_gt; lia).
    cbn [orb Nat.eqb]. rewrite seq_S. cbn [Nat.add].
    f_equal. lia.
  - rewrite (Nat.min_l _ K), (Nat.min_l _ (S K)) by lia.
    replace (C <=? Z.of_nat (Z.to_nat C))%Z with true
      by (symmetry; apply Z.leb_le; lia).
    cbn [orb]. f_equal.
    replace (S K - Z.to_nat C) with (S (K - Z.to_nat C)) by lia.
    rewrite seq_S. f_equal. f_equal. lia.
Qed.

Lemma batch_state (C : Z) (K : nat) :
  run (repeat Enqueue K) (create C)
  = Some (mkState C
            (seq (Nat.min (Z.to_nat C) K) (K - Nat.min (Z.to_nat C) K))
            (Z.of_nat (Nat.min (Z.to_nat C) K))
            (seq 0 (Nat.min (Z.to_nat C) K)) [] K).
Proof.
  induction K as [|K IH].
  - rewrite Nat.min_0_r. reflexivity.
  - change (repeat Enqueue (S K)) with (Enqueue :: repeat Enqueue K).
    rewrite repeat_cons, run_app, IH. cbn [run step].
    now rewrite enqueue_batch.
Qed.

(** X6: what a batch does.  After [K] tasks have been enqueued in a new
    queue with limit [C], with no completion in between, the first
    [min C K] tasks are running, started in submission order, and the
    others wait in submission order (a limit below one starts nothing):
    task [t] of the batch is running exactly when [t < C]. *)
Theorem X6_batch_of_submissions (C : Z) (K : nat) :
  exists s,
    run (repeat Enqueue K) (create C) = Some s /\
    inFlight s = seq 0 (Nat.min (Z.to_nat C) K) /\
    queue s = seq (Nat.min (Z.to_nat C) K) (K - Nat.min (Z.to_nat C) K) /\
    activeCount s = Z.of_nat (Nat.min (Z.to_nat C) K) /\
    settled s = [] /\ submitted s = K /\
    (forall t, t < K ->
               (In t (inFlight s) <-> (Z.of_nat t < C)%Z) /\
               (In t (queue s) <-> (C <= Z.of_nat t)%Z)).
Proof.
  eexists. split; [apply batch_state|].
  cbn [inFlight queue activeCount settled submitted].
  repeat (split; [reflexivity|]).
  intros t Ht. rewrite !in_seq. lia.
Qed.

End RequestQueueMore.

(** ** processNodesInChunks: the submission loop *)

Module SubmissionFacts.
Import RequestQueue RequestQueueFacts RequestQueueMore Submission.

Lemma slice_rest {A} (nodes : list A) (i : nat) :
  slice nodes i (i + CHUNK_SIZE) ++ skipn (i + CHUNK_SIZE) nodes
  = skipn i nodes.
Proof.
  unfold slice. replace (i + CHUNK_SIZE - i) with CHUNK_SIZE by lia.
  rewrite (Nat.add_comm i), <- skipn_skipn. apply firstn_skipn.
Qed.

Lemma chunksFrom_step {A} (nodes : list A) (i : nat) :
  chunksFrom nodes i
  = if lt_dec i (length nodes)
    then slice nodes i (i + CHUNK_SIZE) :: chunksFrom nodes (i + CHUNK_SIZE)
    else [].
Proof.
  rewrite chunksFrom_unfold_eq. unfold chunksFrom_unfold.
  destruct (lt_dec i (length nodes)); reflexivity.
Qed.

Lemma submitFrom_step {A} (nodes : list A) (i : nat) (q : State)
    (progress : list (nat * nat)) :
  submitFrom nodes i q progress
  = if lt_dec i (length nodes)
    then submitFrom nodes (i + CHUNK_SIZE)
           (submitChunk (slice nodes i (i + CHUNK_SIZE)) q)
           (progress ++ [(Nat.min (i + CHUNK_SIZE) (length nodes),
                          length nodes)])
    else (q, progress).
Proof.
  rewrite submitFrom_unfold_eq. unfold submitFrom_unfold.
  destruct (lt_dec i (length nodes)); reflexivity.
Qed.

Lemma chunksFrom_facts {A} (nodes : list A) (n : nat) :
  forall i,
    length nodes - i <= n ->
    concat (chunksFrom nodes i) = skipn i nodes /\
    Forall (fun chunk => 0 < length chunk <= CHUNK_SIZE) (chunksFrom nodes i) /\
    length (chunksFrom nodes i)
    = (length nodes - i + (CHUNK_SIZE - 1)) / CHUNK_SIZE.
Proof.
  induction n as [|n IH]; intros i Hn; rewrite chunksFrom_step;
    destruct (lt_dec i (length nodes)) as [Hlt | Hge]; try lia.
  - cbn [concat length]. rewrite skipn_all2 by lia.
    split; [reflexivity|]. split; [constructor|].
    unfold CHUNK_SIZE. symmetry. apply Nat.div_small. lia.
  - destruct (IH (i + CHUNK_SIZE)) as [H1 [H2 H3]];
      [unfold CHUNK_SIZE; lia|].
    cbn [concat length]. split; [|split].
    + rewrite H1. apply slice_rest.
    + constructor; [|assumption].
      unfold slice. rewrite length_firstn, length_skipn.
      unfold CHUNK_SIZE. lia.
    + rewrite H3. unfold CHUNK_SIZE.
      destruct (Nat.le_gt_cases (i + 50) (length nodes)) as [Hfull | Hlast].
      * replace (length nodes - i + (50 - 1))
          with (length nodes - (i + 50) + (50 - 1) + 1 * 50) by lia.
        rewrite Nat.div_add by lia. lia.
      * replace (length nodes - (i + 50)) with 0 by lia.
        rewrite (Nat.div_small (0 + (50 - 1))) by lia.
        cbn [Nat.add].
        apply (Nat.div_unique _ _ _ (length nodes - i - 1)); lia.
  - cbn [concat length]. rewrite skipn_all2 by lia.
    split; [reflexivity|]. split; [constructor|].
    unfold CHUNK_SIZE. symmetry. apply Nat.div_small. lia.
Qed.

Lemma submitChunk_app {A} (xs ys : list A) (q : State) :
  submitChunk (xs ++ ys) q = submitChunk ys (submitChunk xs q).
Proof. apply fold_left_app. Qed.

Lemma submitChunk_run {A} (xs : list A) (q : State) :
  run (repeat Enqueue (length xs)) q = Some (submitChunk xs q).
Proof.
  revert q. induction xs as [|x xs IH]; intros q; [reflexivity|].
  cbn [length repeat run step]. apply IH.
Qed.

Lemma submitFrom_all {A} (nodes : list A) (n : nat) :
  forall i q progress,
    length nodes - i <= n ->
    fst (submitFrom nodes i q progress) = submitChunk (skipn i nodes) q /\
    length (snd (submitFrom nodes i q progress))
    = length progress + length (chunksFrom nodes i) /\
    (i < length nodes ->
     last (snd (submitFrom nodes i q progress)) (0, 0)
     = (length nodes, length nodes)).
Proof.
  induction n as [|n IH]; intros i q progress Hn;
    rewrite submitFrom_step, chunksFrom_step;
    destruct (lt_dec i (length nodes)) as [Hlt | Hge]; try lia.
  - cbn [fst snd length]. rewrite skipn_all2 by lia.
    split; [reflexivity|]. split; lia.
  - destruct (IH (i + CHUNK_SIZE)
                (submitChunk (slice nodes i (i + CHUNK_SIZE)) q)
                (progress ++ [(Nat.min (i + CHUNK_SIZE) (length nodes),
                               length nodes)]))
      as [H1 [H2 H3]]; [unfold CHUNK_SIZE; lia|].
    split; [|split].
    + rewrite H1, <- submitChunk_app, slice_rest. reflexivity.
    + rewrite H2, length_app. cbn [length]. lia.
    + intros _.
      destruct (lt_dec (i + CHUNK_SIZE) (length nodes)) as [Hl | Hg];
        [now apply H3|].
      rewrite submitFrom_step.
      destruct (lt_dec (i + CHUNK_SIZE) (length nodes)); [contradiction|].
      cbn [snd]. rewrite last_last. f_equal. lia.
  - cbn [fst snd length]. rewrite skipn_all2 by lia.
    split; [reflexivity|]. split; lia.
Qed.

Lemma submitFrom_batch {A} (nodes : list A) (q : State) :
  run (repeat Enqueue (length nodes)) q
  = Some (fst (submitFrom nodes 0 q [])).
Proof.
  destruct (submitFrom_all nodes _ 0 q [] (le_n _)) as [H1 _].
  rewrite H1. apply submitChunk_run.
Qed.

(** X7: grouping does not change what is submitted.  The loop of
    [processNodesInChunks] cuts the nodes into consecutive chunks of 50 (the
    last one may be shorter, none is empty, there are ceil(n / 50) of them)
    and leaves the queue exactly as enqueueing the nodes one by one in node
    order does; it writes one progress line per chunk, the last one
    reporting all the nodes. *)
Theorem X7_chunks_cover_the_nodes_in_order {A} (nodes : list A) (q : State) :
  concat (chunksFrom nodes 0) = nodes /\
  Forall (fun chunk => 0 < length chunk <= CHUNK_SIZE) (chunksFrom nodes 0) /\
  length (chunksFrom nodes 0) = (length nodes + 49) / 50 /\
  run (repeat Enqueue (length nodes)) q
  = Some (fst (submitFrom nodes 0 q [])) /\
  length (snd (submitFrom nodes 0 q [])) = length (chunksFrom nodes 0) /\
  (nodes <> [] ->
   last (snd (submitFrom nodes 0 q [])) (0, 0) = (length nodes, length nodes)).
Proof.
  destruct (submitFrom_all nodes _ 0 q [] (le_n _)) as [_ [H2 H3]].
  destruct (chunksFrom_facts nodes _ 0 (le_n _)) as [C1 [C2 C3]].
  split; [exact C1|]. split; [exact C2|].
  split; [rewrite C3; unfold CHUNK_SIZE; f_equal; lia|].
  split; [apply submitFrom_batch|].
  split; [exact H2|].
  intros Hne. apply H3. destruct nodes; [contradiction | cbn [length]; lia].
Qed.

(** X8: when the submission loop of [processNodesInChunks] ends on a new
    queue with the limit of the plugin, the first [min 5 n] nodes are being
    processed and the other nodes wait in node order; nothing has settled
    yet. *)
Theorem X8_after_submission_five_nodes_run {A} (nodes : list A) :
  fst (submitFrom nodes 0 (create MAX_CONCURRENT_REQUESTS) [])
  = mkState 5 (seq (Nat.min 5 (length nodes))
                   (length nodes - Nat.min 5 (length nodes)))
            (Z.of_nat (Nat.min 5 (length nodes)))
            (seq 0 (Nat.min 5 (length nodes))) [] (length nodes).
Proof.
  pose proof (submitFrom_batch nodes (create MAX_CONCURRENT_REQUESTS)) as Hrun.
  unfold MAX_CONCURRENT_REQUESTS in *.
  rewrite (batch_state 5 (length nodes)) in Hrun.
  injection Hrun as Hrun. symmetry. exact Hrun.
Qed.

End SubmissionFacts.

(** ** Retry and the import cache, continued *)

Section RetryMore.
Context {figma : Figma}.

Lemma totalWait_doubling (k : nat) (d : Z) :
  totalWait (doubling k d) = (d * (2 ^ Z.of_nat k - 1))%Z.
Proof.
  revert d. induction k as [|k IH]; intros d.
  - simpl. lia.
  - cbn [doubling totalWait fold_right]. fold (totalWait (doubling k (d * 2))).
    rewrite IH, Nat2Z.inj_succ, Z.pow_succ_r by lia. lia.
Qed.

Lemma withRetry_recovers T (fn : Remote T) (v : T) (k : nat) :
  forall retries delayMs r w',
    recoversAfter fn v k (host r) w' -> (Z.of_nat k <= retries)%Z ->
    withRetry fn retries delayMs r
    = (Ok v, mkRun w' (importedVariablesCache r)
                   (effects r ++ backoff (api fn) k delayMs)).
Proof.
  induction k as [|k IH]; intros retries delayMs r w' Hrec Hk;
    inversion Hrec as [w0 w0' Hcall | k0 w0 w1 w0' e Hcall H429 Hrest]; subst;
    rewrite withRetry_step, call_run, Hcall; cbn [fst snd].
  - reflexivity.
  - rewrite H429.
    replace (0 <? retries)%Z with true by (symmetry; apply Z.ltb_lt; lia).
    cbn [andb]. rewrite (IH _ _ _ w'); [|exact Hrest | lia].
    cbn [emit host importedVariablesCache effects backoff].
    rewrite <- !app_assoc. reflexivity.
Qed.

(** X9: a transient failure is waited out.  If the operation is
    rate-limited [k] times in a row and then succeeds, and [k] is at most
    [retries], [withRetry] returns the value of the successful call after
    [k + 1] calls, having slept [d, 2d, ..., 2^(k-1) d] between them, and has
    not touched the import cache. *)
Theorem X9_transient_failures_are_waited_out T (fn : Remote T) (v : T)
    (k : nat) (retries delayMs : Z) (r : Run) (w' : World) :
  recoversAfter fn v k (host r) w' -> (Z.of_nat k <= retries)%Z ->
  withRetry fn retries delayMs r
  = (Ok v, mkRun w' (importedVariablesCache r)
                 (effects r ++ backoff (api fn) k delayMs)) /\
  attempts (backoff (api fn) k delayMs) = k + 1 /\
  waits (backoff (api fn) k delayMs) = doubling k delayMs.
Proof.
  intros Hrec Hk. split; [now apply withRetry_recovers|].
  split; [apply attempts_backoff | apply waits_backoff].
Qed.

(** X10: retrying is bounded for every operation.  Whatever the operation
    answers, [withRetry] calls it between once and [retries + 1] times (once
    when [retries] is zero or negative), does nothing but call, warn and
    sleep, sleeps [d (2^k - 1)] in total for [k] retries, and leaves the
    import cache as it was; with the default arguments that is at most four
    calls and seven seconds of sleep. *)
Theorem X10_retrying_is_bounded T (fn : Remote T) (retries delayMs : Z)
    (r : Run) :
  exists k,
    k <= Z.to_nat retries /\
    effects (snd (withRetry fn retries delayMs r))
    = effects r ++ backoff (api fn) k delayMs /\
    attempts (backoff (api fn) k delayMs) = k + 1 /\
    totalWait (waits (backoff (api fn) k delayMs))
    = (delayMs * (2 ^ Z.of_nat k - 1))%Z /\
    importedVariablesCache (snd (withRetry fn retries delayMs r))
    = importedVariablesCache r /\
    (retries = 3%Z -> delayMs = 1000%Z ->
     k + 1 <= 4 /\
     (totalWait (waits (backoff (api fn) k delayMs)) <= 7000)%Z).
Proof.
  destruct (withRetry_shape T fn _ retries delayMs r eq_refl)
    as [k [Hk [He Hc]]].
  exists k. split; [exact Hk|]. split; [exact He|].
  split; [apply attempts_backoff|].
  rewrite waits_backoff, totalWait_doubling.
  split; [reflexivity|]. split; [exact Hc|].
  intros -> ->. change (Z.to_nat 3) with 3 in Hk. split; [lia|].
  assert (H2 : (2 ^ Z.of_nat k <= 2 ^ 3)%Z)
    by (apply Z.pow_le_mono_r; lia).
  change (2 ^ 3)%Z with 8%Z in H2. lia.
Qed.

(** X11: an import that fails is reported, not thrown and not cached.
    [getImportedVariable] never rejects; when it returns null the key was
    not cached, the cache is as it was, and the last thing written is the
    console error for that key, so a later request tries the import again. *)
Theorem X11_failed_import_is_not_cached (libVar : LibraryVariable) (r : Run) :
  exists v r',
    getImportedVariable libVar r = (Ok v, r') /\
    (v = None ->
     JsMap.has (importedVariablesCache r) (lib_key libVar) = false /\
     importedVariablesCache r' = importedVariablesCache r /\
     exists e before,
       effects r' = before ++ [ConsoleError (ImportSite (lib_key libVar)) e]).
Proof.
  unfold getImportedVariable.
  destruct (JsMap.has (importedVariablesCache r) (lib_key libVar)) eqn:Hhas.
  - do 2 eexists. split; [reflexivity|]. intros Hnone.
    apply JsMapFacts.has_get in Hhas as [x Hx]. congruence.
  - destruct (withRetry_shape _ (importVariableByKey (lib_key libVar)) _
                3%Z 1000%Z r eq_refl) as [k [_ [_ Hc]]].
    unfold withRetryDefault.
    destruct (withRetry (importVariableByKey (lib_key libVar)) 3 1000 r)
      as [[imported | e] r1]; cbn [afterImport snd] in *.
    + do 2 eexists. split; [reflexivity | discriminate].
    + do 2 eexists. split; [reflexivity|]. intros _.
      split; [reflexivity|]. split; [exact Hc|].
      exists e, (effects r1). reflexivity.
Qed.

(** X12: a request changes the cache at its own key only.  After
    [getImportedVariable] for a key, every other key of the cache holds what
    it held, no key has gone, and the cache has at most one entry more. *)
Theorem X12_import_touches_its_key_only (libVar : LibraryVariable) (r : Run) :
  let cache := importedVariablesCache r in
  let cache' := importedVariablesCache (snd (getImportedVariable libVar r)) in
  (forall key, key <> lib_key libVar ->
               JsMap.get cache' key = JsMap.get cache key) /\
  (forall key, JsMap.has cache key = true -> JsMap.has cache' key = true) /\
  length cache <= length cache' <= length cache + 1.
Proof.
  intros cache cache'. subst cache cache'. unfold getImportedVariable.
  destruct (JsMap.has (importedVariablesCache r) (lib_key libVar)).
  { cbn [snd]. repeat split; auto; lia. }
  destruct (withRetry_shape _ (importVariableByKey (lib_key libVar)) _
              3%Z 1000%Z r eq_refl) as [k [_ [_ Hc]]].
  unfold withRetryDefault.
  destruct (withRetry (importVariableByKey (lib_key libVar)) 3 1000 r)
    as [[imported | e] r1]; cbn [afterImport snd emit importedVariablesCache] in *;
    rewrite Hc.
  - split; [|split].
    + intros key Hne. apply JsMapFacts.get_set_other. congruence.
    + intros key. apply JsMapFacts.has_set.
    + generalize (importedVariablesCache r) as m.
      induction m as [|[k0 v0] m IH]; cbn [JsMap.set length]; [lia|].
      destruct (String.eqb k0 (lib_key libVar)); cbn [length]; lia.
  - repeat split; auto; lia.
Qed.

End RetryMore.

(** ** The rebinding pipeline, continued *)

Section PipelineMore.
Context {figma : Figma}.

Lemma processPaint_unbound webVariablesMap webCollectionId paint r :
  isBoundSolid paint = false ->
  processPaint webVariablesMap webCollectionId paint r = (Ok paint, r).
Proof.
  unfold isBoundSolid, processPaint. intros Hb.
  destruct (String.eqb (paint_type paint) "SOLID"); [|reflexivity].
  cbn [andb] in Hb. rewrite Hb. reflexivity.
Qed.

Lemma processPaint_shape webVariablesMap webCollectionId paint r paint' r' :
  processPaint webVariablesMap webCollectionId paint r = (Ok paint', r') ->
  paint_type paint' = paint_type paint /\
  paint_data paint' = paint_data paint /\
  (paint' = paint \/
   exists imported, paint' = setBoundVariableForPaint paint imported).
Proof.
  unfold processPaint.
  destruct (negb (String.eqb (paint_type paint) "SOLID")
            || negb (truthy (boundColorId paint)));
    [intros [= <- <-]; auto|].
  destruct (boundColorId paint) as [variableId|]; [|intros [= <- <-]; auto].
  destruct (withRetryDefault (getVariableById variableId) r)
    as [[[variable|] | e] r1]; try solve [intros [= <- <-]; auto]; try discriminate.
  destruct (truthy webCollectionId
            && isFromWebCollection variable webCollectionId);
    [intros [= <- <-]; auto|].
  destruct (JsMap.get webVariablesMap (var_name variable)) as [libVar|];
    [|intros [= <- <-]; auto].
  destruct (getImportedVariable libVar r1) as [[[imported|] | e] r2];
    try solve [intros [= <- <-]; auto]; try discriminate.
  intros [= <- <-]. repeat split. right. now exists imported.
Qed.

Lemma promiseAll_Forall2 {A B} (f : A -> M B) (R : A -> B -> Prop)
    (xs : list A) :
  (forall x b r r', In x xs -> f x r = (Ok b, r') -> R x b) ->
  forall r l r',
    promiseAll (map f xs) r = (Ok l, r') -> Forall2 R xs l.
Proof.
  induction xs as [|x xs IH]; intros HR r l r'; cbn [map promiseAll].
  - intros [= <- _]. constructor.
  - destruct (f x r) as [[b | e] r1] eqn:Hx;
      destruct (promiseAll (map f xs) r1) as [[bs | e'] r2] eqn:Hxs;
      try discriminate.
    intros [= <- <-]. constructor.
    + eapply HR; [now left | exact Hx].
    + eapply IH; [|exact Hxs]. intros y b' s s' Hy. apply HR. now right.
Qed.

(** X13: a slot without bound solid paints costs nothing.  When no paint of
    the slot is a solid paint bound to a variable, [processPaints] makes no
    call to the host, does not write the slot and leaves the run as it
    was. *)
Theorem X13_unbound_slot_costs_nothing (node : SceneNode)
    (paintType : PaintType) (webVariablesMap : JsMap.t LibraryVariable)
    (webCollectionId : option string) (r : Run) :
  (forall paints, getPaints node paintType = Some paints ->
                  Forall (fun paint => isBoundSolid paint = false) paints) ->
  processPaints node paintType webVariablesMap webCollectionId r
  = (Ok tt, node, r).
Proof.
  intros Hb. unfold processPaints.
  destruct (getPaints node paintType) as [paints|]; [|reflexivity].
  assert (Hall : promiseAll
                   (map (processPaint webVariablesMap webCollectionId) paints) r
                 = (Ok paints, r)).
  { specialize (Hb paints eq_refl). revert r.
    induction Hb as [|p ps Hp _ IH]; intros r; cbn [map promiseAll];
      [reflexivity|].
    now rewrite (processPaint_unbound _ _ _ _ Hp), IH. }
  now rewrite Hall, paintsChanged_same.
Qed.

(** X14: rebinding changes bindings only.  Whatever the host answers, the
    slot has as many paints after [processPaints] as before, each with the
    type and the other data it had; a paint that is not a bound solid paint
    is the paint it was, and any other paint is either the paint it was or
    that paint with its color bound to an imported variable. *)
Theorem X14_rebinding_changes_bindings_only (node : SceneNode)
    (paintType : PaintType) (webVariablesMap : JsMap.t LibraryVariable)
    (webCollectionId : option string) (r : Run) :
  match getPaints node paintType,
        getPaints (snd (fst (processPaints node paintType webVariablesMap
                                           webCollectionId r))) paintType
  with
  | Some paints, Some paints' =>
      Forall2 (fun paint paint' =>
                 paint_type paint' = paint_type paint /\
                 paint_data paint' = paint_data paint /\
                 (isBoundSolid paint = false -> paint' = paint) /\
                 (paint' = paint \/
                  exists imported,
                    paint' = setBoundVariableForPaint paint imported))
              paints paints'
  | None, None => True
  | _, _ => False
  end.
Proof.
  unfold processPaints.
  destruct (getPaints node paintType) as [paints|] eqn:Hp;
    [|cbn [fst snd]; now rewrite Hp].
  assert (Hsame : Forall2 (fun paint paint' =>
                 paint_type paint' = paint_type paint /\
                 paint_data paint' = paint_data paint /\
                 (isBoundSolid paint = false -> paint' = paint) /\
                 (paint' = paint \/
                  exists imported,
                    paint' = setBoundVariableForPaint paint imported))
              paints paints).
  { clear Hp. induction paints; constructor; auto. }
  destruct (promiseAll (map (processPaint webVariablesMap webCollectionId)
                            paints) r) as [[updatedPaints | e] r1] eqn:Hall;
    cbn [fst snd]; [|now rewrite Hp].
  destruct (paintsChanged paints updatedPaints); cbn [fst snd];
    [|now rewrite Hp].
  replace (getPaints (setPaints node paintType updatedPaints) paintType)
    with (Some updatedPaints) by (destruct paintType; reflexivity).
  eapply promiseAll_Forall2; [|exact Hall].
  intros paint paint' s s' _ Hpaint.
  destruct (processPaint_shape _ _ _ _ _ _ Hpaint) as [H1 [H2 H3]].
  repeat split; auto.
  intros Hb. rewrite (processPaint_unbound _ _ _ _ Hb) in Hpaint.
  now injection Hpaint as <- _.
Qed.

Lemma clearAll_node collections :
  forall node r, exists m, fst (clearAll collections node r) = setModes node m.
Proof.
  unfold clearAll.
  induction collections as [|[c|] cs IH]; intros node r; cbn [fold_left].
  - exists (explicitVariableModes node). cbn [fst].
    symmetry. now apply setModes_same.
  - cbn [fst snd]. unfold clearExplicitVariableModeForCollection at 2.
    destruct (IH (setModes node
                    (option_map (fun m => JsMap.delete m (coll_id c))
                                (explicitVariableModes node)))
                 (emit (ClearMode (coll_id c)) r)) as [m Hm].
    exists m. now rewrite Hm, setModes_setModes.
  - apply IH.
Qed.

Lemma setAll_node web modeIds :
  forall node r, exists m, fst (setAll web modeIds node r) = setModes node m.
Proof.
  unfold setAll.
  induction modeIds as [|v vs IH]; intros node r; cbn [fold_left].
  - exists (explicitVariableModes node). cbn [fst].
    symmetry. now apply setModes_same.
  - cbn [fst snd]. unfold setExplicitVariableModeForCollection at 2.
    edestruct IH as [m Hm]. exists m. rewrite Hm.
    now rewrite setModes_setModes.
Qed.

(** Mode reassignment never rejects and touches the modes only. *)
Lemma reassignVariableModes_total node webCollection r :
  exists m r',
    reassignVariableModes node webCollection r = (Ok tt, setModes node m, r').
Proof.
  unfold reassignVariableModes.
  destruct (explicitVariableModes node) as [modes|] eqn:Hm.
  2:{ exists None, r. now rewrite setModes_same. }
  destruct (length (JsMap.keys modes) =? 0).
  { exists (Some modes), r. now rewrite setModes_same. }
  destruct (promiseAll_total fetchCollection (JsMap.keys modes)
              fetchCollection_total r) as [collections [r1 [Hall _]]].
  rewrite Hall.
  destruct (clearAll_node collections node r1) as [m1 Hc].
  destruct (clearAll collections node r1) as [node1 r2]. cbn [fst] in Hc.
  subst node1. destruct webCollection as [web|].
  - destruct (setAll_node web (JsMap.values modes) (setModes node m1) r2)
      as [m2 Hs].
    destruct (setAll web (JsMap.values modes) (setModes node m1) r2)
      as [node2 r3]. cbn [fst] in Hs. subst node2.
    exists m2, r3. now rewrite setModes_setModes.
  - now exists m1, r2.
Qed.

Lemma processPaints_keeps node paintType webVariablesMap webCollectionId r :
  let node' := snd (fst (processPaints node paintType webVariablesMap
                                       webCollectionId r)) in
  node_name node' = node_name node /\ node_type node' = node_type node /\
  parent node' = parent node /\ children node' = children node.
Proof.
  unfold processPaints.
  destruct (getPaints node paintType) as [paints|]; [|cbn; auto].
  destruct (promiseAll (map (processPaint webVariablesMap webCollectionId)
                            paints) r) as [[updatedPaints | e] r1];
    [|cbn; auto].
  destruct (paintsChanged paints updatedPaints); [|cbn; auto].
  destruct paintType; cbn; auto.
Qed.

(** X15: processing a node never renames, retypes, moves or re-parents it.
    [processSingleNode] leaves the name, the type, the parent and the
    children of the node as they were, and when it rejects (a variable
    lookup failed) the explicit modes are untouched and no mode call was
    made. *)
Theorem X15_processing_keeps_the_node_in_place (node : SceneNode)
    (webVariablesMap : JsMap.t LibraryVariable)
    (webCollection : option VariableCollection) (r : Run) :
  exists done node' r',
    processSingleNode node webVariablesMap webCollection r = (done, node', r') /\
    node_name node' = node_name node /\ node_type node' = node_type node /\
    parent node' = parent node /\ children node' = children node /\
    (forall e, done = Err e ->
               explicitVariableModes node' = explicitVariableModes node /\
               modeCalls (effects r') = modeCalls (effects r)).
Proof.
  unfold processSingleNode.
  pose proof (processPaints_keeps node Fills webVariablesMap
                (option_map coll_id webCollection) r) as K1.
  pose proof (processPaints_frame node Fills webVariablesMap
                (option_map coll_id webCollection) r) as F1.
  destruct (processPaints node Fills webVariablesMap
              (option_map coll_id webCollection) r)
    as [[fillsDone node1] r1].
  pose proof (processPaints_keeps node1 Strokes webVariablesMap
                (option_map coll_id webCollection) r1) as K2.
  pose proof (processPaints_frame node1 Strokes webVariablesMap
                (option_map coll_id webCollection) r1) as F2.
  destruct (processPaints node1 Strokes webVariablesMap
              (option_map coll_id webCollection) r1)
    as [[strokesDone node2] r2].
  cbn [fst snd] in K1, K2.
  destruct K1 as [N1 [T1 [P1 C1]]], K2 as [N2 [T2 [P2 C2]]].
  destruct F1 as [M1 [_ E1]], F2 as [M2 [_ E2]].
  assert (Hkeep : node_name node2 = node_name node /\
                  node_type node2 = node_type node /\
                  parent node2 = parent node /\
                  children node2 = children node)
    by (repeat split; congruence).
  assert (Hmodes : explicitVariableModes node2 = explicitVariableModes node /\
                   modeCalls (effects r2) = modeCalls (effects r))
    by (split; congruence).
  destruct fillsDone as [[]|e1]; [destruct strokesDone as [[]|e2]|].
  - destruct (negb (Tree.isNestedInInstance node2)).
    + destruct (reassignVariableModes_total node2 webCollection r2)
        as [m [r3 Hre]]. rewrite Hre.
      exists (Ok tt), (setModes node2 m), r3.
      split; [reflexivity|]. cbn [setModes node_name node_type parent children].
      destruct Hkeep as [? [? [? ?]]]. repeat split; auto; discriminate.
    + exists (Ok tt), node2, r2. destruct Hkeep as [? [? [? ?]]].
      repeat split; auto; discriminate.
  - exists (Err e2), node2, r2. destruct Hkeep as [? [? [? ?]]].
    destruct Hmodes. repeat split; auto.
  - exists (Err e1), node2, r2. destruct Hkeep as [? [? [? ?]]].
    destruct Hmodes. repeat split; auto.
Qed.

Lemma get_delete_some (m : JsMap.t string) (k k' v : string) :
  JsMap.get (JsMap.delete m k) k' = Some v -> JsMap.get m k' = Some v.
Proof.
  induction m as [|[k0 v0] m IH]; [discriminate|].
  unfold JsMap.delete. cbn [filter fst]. fold (JsMap.delete m k).
  destruct (String.eqb k0 k) eqn:Ek; cbn [negb JsMap.get].
  - intros H. destruct (String.eqb k0 k') eqn:Ek'; [|now apply IH].
    apply String.eqb_eq in Ek, Ek'. subst k k'.
    rewrite JsMapFacts.get_delete_same in H. discriminate.
  - destruct (String.eqb k0 k'); auto.
Qed.

Lemma get_deletes_some (ks : list string) :
  forall (m : JsMap.t string) k' v,
    JsMap.get (fold_left (fun m k => JsMap.delete m k) ks m) k' = Some v ->
    JsMap.get m k' = Some v.
Proof.
  induction ks as [|k ks IH]; intros m k' v; cbn [fold_left]; [auto|].
  intros H. apply IH in H. eapply get_delete_some; eassumption.
Qed.

(** X16: without a target collection the overrides are dropped.  For a node
    with a non-empty explicit mapping, when no target collection was
    resolved, [reassignVariableModes] clears the mode of every collection
    of the mapping that the host finds and sets nothing: what is left of the
    mapping is a part of the original one, and no set-mode call is made. *)
Theorem X16_without_target_overrides_are_dropped (node : SceneNode)
    (modes : JsMap.t string) (r : Run) :
  explicitVariableModes node = Some modes -> modes <> [] ->
  exists collections r1 node' r' modes',
    promiseAll (map fetchCollection (JsMap.keys modes)) r
    = (Ok collections, r1) /\
    reassignVariableModes node None r = (Ok tt, node', r') /\
    effects r' = effects r1 ++ map ClearMode (resolvedIds collections) /\
    explicitVariableModes node' = Some modes' /\
    (forall c, In (Some c) collections ->
               JsMap.get modes' (coll_id c) = None) /\
    (forall collId modeId,
        JsMap.get modes' collId = Some modeId ->
        JsMap.get modes collId = Some modeId).
Proof.
  intros Hm Hne.
  destruct (promiseAll_total fetchCollection (JsMap.keys modes)
              fetchCollection_total r) as [collections [r1 [Hall _]]].
  exists collections, r1. do 2 eexists.
  exists (fold_left (fun m k => JsMap.delete m k)
                    (resolvedIds collections) modes).
  split; [exact Hall|]. split.
  - unfold reassignVariableModes. rewrite Hm.
    replace (length (JsMap.keys modes) =? 0) with false
      by (destruct modes; [contradiction | reflexivity]).
    rewrite Hall, (clearAll_spec _ _ _ modes Hm). reflexivity.
  - cbn [effects setModes explicitVariableModes].
    split; [reflexivity|]. split; [reflexivity|]. split.
    + intros c Hin. apply get_after_deletes. left. now apply In_resolvedIds.
    + intros collId modeId. apply get_deletes_some.
Qed.

End PipelineMore.

(** ** The catalog and the main function *)

Section OrchestrationFacts.
Context {figma : Figma} {library : TeamLibrary figma}.

Lemma find_last {A} (f : A -> bool) (l : list A) (x : A) :
  find f (l ++ [x])
  = match find f l with
    | Some y => Some y
    | None => if f x then Some x else None
    end.
Proof.
  induction l as [|y l IH]; cbn [app find]; [reflexivity|].
  destruct (f y); [reflexivity | exact IH].
Qed.

Lemma get_set (m : JsMap.t LibraryVariable) k k' v :
  JsMap.get (JsMap.set m k v) k'
  = if String.eqb k k' then Some v else JsMap.get m k'.
Proof.
  destruct (String.eqb k k') eqn:E.
  - apply String.eqb_eq in E. subst k'. apply JsMapFacts.get_set_same.
  - apply String.eqb_neq in E. now apply JsMapFacts.get_set_other.
Qed.

Lemma catalog_entry (variables : list LibraryVariable) :
  forall (m : JsMap.t LibraryVariable) name,
    JsMap.get (fold_left (fun m libVar => JsMap.set m (lib_name libVar) libVar)
                         variables m) name
    = match find (fun libVar => String.eqb (lib_name libVar) name)
                 (rev variables)
      with
      | Some libVar => Some libVar
      | None => JsMap.get m name
      end.
Proof.
  induction variables as [|v vs IH]; intros m name; [reflexivity|].
  cbn [fold_left rev]. rewrite IH, find_last.
  destruct (find (fun libVar => String.eqb (lib_name libVar) name) (rev vs));
    [reflexivity|].
  rewrite get_set. now destruct (String.eqb (lib_name v) name).
Qed.

Lemma keys_set (m : JsMap.t LibraryVariable) k v :
  JsMap.keys (JsMap.set m k v)
  = if JsMap.has m k then JsMap.keys m else JsMap.keys m ++ [k].
Proof.
  unfold JsMap.has, JsMap.keys.
  induction m as [|[k0 v0] m IH]; cbn [JsMap.set JsMap.get map fst app];
    [reflexivity|].
  destruct (String.eqb k0 k); cbn [map fst]; [reflexivity|].
  rewrite IH. now destruct (JsMap.get m k).
Qed.

Lemma get_keys (m : JsMap.t LibraryVariable) k :
  JsMap.get m k = None -> ~ In k (JsMap.keys m).
Proof.
  unfold JsMap.keys.
  induction m as [|[k0 v0] m IH]; cbn [JsMap.get map fst]; [auto|].
  destruct (String.eqb k0 k) eqn:E; [discriminate|].
  apply String.eqb_neq in E. intros Hg [H | H]; [congruence | now apply IH].
Qed.

Lemma catalog_keys (variables : list LibraryVariable) :
  forall (m : JsMap.t LibraryVariable),
    NoDup (JsMap.keys m) ->
    NoDup (JsMap.keys
             (fold_left (fun m libVar => JsMap.set m (lib_name libVar) libVar)
                        variables m)) /\
    (variables <> [] ->
     fold_left (fun m libVar => JsMap.set m (lib_name libVar) libVar)
               variables m <> []).
Proof.
  induction variables as [|v vs IH]; intros m Hnd; cbn [fold_left].
  - split; [assumption | contradiction].
  - destruct (IH (JsMap.set m (lib_name v) v)) as [H1 H2].
    + rewrite keys_set. unfold JsMap.has.
      destruct (JsMap.get m (lib_name v)) eqn:Hg; [assumption|].
      apply NoDup_app; [assumption | repeat constructor; auto |].
      intros a Ha [Heq | []]. subst a. now apply (get_keys m (lib_name v)).
    + split; [exact H1|]. intros _.
      destruct vs as [|v' vs']; [|apply H2; discriminate].
      cbn [fold_left]. destruct m as [|[k0 v0] m]; cbn [JsMap.set];
        [discriminate|].
      destruct (String.eqb k0 (lib_name v)); discriminate.
Qed.

(** X17: when two variables of the library have the same name, the last
    one wins.  The catalog built from the list of the library maps every
    name of the list to the last variable of the list with that name, has
    one entry per name, holds nothing that is not in the list, and is empty
    only for an empty list. *)
Theorem X17_last_variable_of_a_name_wins (variables : list LibraryVariable) :
  (forall name,
      JsMap.get (buildCatalog variables) name
      = find (fun libVar => String.eqb (lib_name libVar) name)
             (rev variables)) /\
  NoDup (JsMap.keys (buildCatalog variables)) /\
  (forall name libVar,
      JsMap.get (buildCatalog variables) name = Some libVar ->
      In libVar variables /\ lib_name libVar = name) /\
  (length (buildCatalog variables) = 0 <-> variables = []).
Proof.
  assert (Hget : forall name,
      JsMap.get (buildCatalog variables) name
      = find (fun libVar => String.eqb (lib_name libVar) name)
             (rev variables)).
  { intros name. unfold buildCatalog. rewrite catalog_entry.
    now destruct (find _ (rev variables)). }
  destruct (catalog_keys variables [] (NoDup_nil _)) as [Hnd Hne].
  split; [exact Hget|]. split; [exact Hnd|]. split.
  - intros name libVar Hin. rewrite Hget in Hin.
    apply find_some in Hin as [Hin Hname].
    split; [now apply in_rev | now apply String.eqb_eq].
  - split.
    + intros Hlen. destruct variables as [|v vs]; [reflexivity|].
      exfalso. apply Hne; [discriminate|].
      fold (buildCatalog (v :: vs)).
      destruct (buildCatalog (v :: vs)); [reflexivity | discriminate].
    + intros ->. reflexivity.
Qed.

Lemma pipelineCalls_app es es' :
  pipelineCalls (es ++ es') = pipelineCalls es ++ pipelineCalls es'.
Proof. apply filter_app. Qed.

Lemma pipelineCalls_backoff name k d :
  pipelineCalls (backoff (OtherApi name) k d) = [].
Proof.
  revert d. induction k as [|k IH]; intros d; [reflexivity|].
  cbn [backoff pipelineCalls filter]. apply IH.
Qed.

Lemma withRetry_other T (fn : Remote T) name retries delayMs r :
  api fn = OtherApi name ->
  pipelineCalls (effects (snd (withRetry fn retries delayMs r)))
  = pipelineCalls (effects r) /\
  importedVariablesCache (snd (withRetry fn retries delayMs r))
  = importedVariablesCache r.
Proof.
  intros Hapi.
  destruct (withRetry_shape T fn _ retries delayMs r eq_refl)
    as [k [_ [He Hc]]].
  split; [|exact Hc].
  rewrite He, Hapi, pipelineCalls_app, pipelineCalls_backoff.
  apply app_nil_r.
Qed.

Lemma getWebLibraryData_frame (s : Session) :
  cachedWebVariablesMap (snd (getWebLibraryData s))
  = Some (fst (getWebLibraryData s)) /\
  pipelineCalls (effects (session_run (snd (getWebLibraryData s))))
  = pipelineCalls (effects (session_run s)) /\
  importedVariablesCache (session_run (snd (getWebLibraryData s)))
  = importedVariablesCache (session_run s).
Proof.
  unfold getWebLibraryData.
  destruct (cachedWebVariablesMap s) as [cached|] eqn:Hc; [auto|].
  destruct getAvailableLibraryVariableCollectionsAsync as [method|]; [|auto].
  destruct (withRetry_other _ (listLibraries method)
              "getAvailableLibraryVariableCollectionsAsync"
              3%Z 1000%Z (session_run s) eq_refl) as [E1 C1].
  unfold withRetryDefault.
  destruct (withRetry (listLibraries method) 3 1000 (session_run s))
    as [[allLibraries | e] r1]; cbn [snd] in E1, C1; [|auto].
  destruct (find _ allLibraries) as [targetLibrary|]; [|auto].
  destruct (withRetry_other _ (listVariables (library_key targetLibrary))
              "getVariablesInLibraryCollectionAsync"
              3%Z 1000%Z r1 eq_refl) as [E2 C2].
  destruct (withRetry (listVariables (library_key targetLibrary)) 3 1000 r1)
    as [[variablesInLibrary | e] r2]; cbn [fst snd session_run] in *;
    repeat split; congruence.
Qed.

(** X18: the catalog is loaded once.  After [getWebLibraryData] has
    returned, the map it returned is cached, also when it is the empty map
    of a failure, and a second call returns the same map without calling the
    host or changing anything; no call ever touches the import cache or
    makes a call of the rebinding pipeline. *)
Theorem X18_catalog_is_loaded_once (s : Session) :
  cachedWebVariablesMap (snd (getWebLibraryData s))
  = Some (fst (getWebLibraryData s)) /\
  getWebLibraryData (snd (getWebLibraryData s)) = getWebLibraryData s /\
  pipelineCalls (effects (session_run (snd (getWebLibraryData s))))
  = pipelineCalls (effects (session_run s)) /\
  importedVariablesCache (session_run (snd (getWebLibraryData s)))
  = importedVariablesCache (session_run s).
Proof.
  destruct (getWebLibraryData_frame s) as [Hc [He Hi]].
  split; [exact Hc|]. split; [|split; assumption].
  destruct (getWebLibraryData s) as [m s1] eqn:Hg. cbn [fst snd] in *.
  unfold getWebLibraryData at 1. now rewrite Hc.
Qed.

Lemma getImportedVariable_never_rejects libVar r :
  exists v r', getImportedVariable libVar r = (Ok v, r').
Proof.
  unfold getImportedVariable.
  destruct (JsMap.has (importedVariablesCache r) (lib_key libVar)); [eauto|].
  destruct (withRetryDefault (importVariableByKey (lib_key libVar)) r)
    as [[imported | e] r1]; cbn [afterImport]; eauto.
Qed.

Lemma resolveWebCollection_never_rejects webVariablesMap r :
  exists webCollection r',
    resolveWebCollection webVariablesMap r = (Ok webCollection, r').
Proof.
  unfold resolveWebCollection.
  destruct (JsMap.values webVariablesMap) as [|firstLibVar rest]; [eauto|].
  destruct (getImportedVariable_never_rejects firstLibVar r) as [v [r1 ->]].
  destruct v as [imported|]; [|eauto].
  destruct (withRetryDefault _ r1) as [[coll | e] r2]; eauto.
Qed.



Lemma flattened_not_empty (selection : list SceneNode) :
  selection <> [] ->
  (length (Tree.getAllNodesInSelection selection) =? 0) = false.
Proof.
  intros Hne. unfold Tree.getAllNodesInSelection.
  rewrite TreeFacts.bfsLoop_levelwise, length_app.
  destruct selection; [contradiction | reflexivity].
Qed.

(** X19: one notification and one [closePlugin] per run, and which one.
    With nothing selected the plugin says so; otherwise it reports that the
    library has no variables exactly when the catalog came back empty, and
    success in every other case.  The notifications for "no nodes" and for a
    failure of [main] are never reached: a non-empty selection flattens to
    a non-empty list, and every failure of the host is caught before it
    reaches [main]. *)
Theorem X19_one_notice_per_run (selection : list SceneNode) (s : Session) :
  closes (plugin selection s) = 1 /\
  notices (plugin selection s)
  = [match selection with
     | [] => NoLayersSelected
     | _ :: _ =>
         if length (fst (getWebLibraryData s)) =? 0
         then NoVariablesInLibrary else Done
     end].
Proof.
  unfold plugin. destruct selection as [|node rest]; [auto|].
  cbn [length Nat.eqb]. unfold main.
  rewrite flattened_not_empty by discriminate.
  destruct (getWebLibraryData s) as [webVariablesMap s1]. cbn [fst].
  destruct (length webVariablesMap =? 0); [auto|].
  destruct (resolveWebCollection_never_rejects webVariablesMap (session_run s1))
    as [webCollection [r2 ->]].
  destruct (runTasks _ webVariablesMap webCollection r2). auto.
Qed.

(** X20: without a catalog no node is touched.  When the catalog comes back
    empty (the API is missing, the library is not found, or a call failed),
    [main] stops before the first node: nothing is processed, no variable is
    looked up or imported, and the import cache is as it was. *)
Theorem X20_empty_catalog_stops_the_run (selection : list SceneNode)
    (s : Session) :
  selection <> [] -> fst (getWebLibraryData s) = [] ->
  processed (main selection s) = [] /\
  notices (main selection s) = [NoVariablesInLibrary] /\
  pipelineCalls (effects (session_run (session (main selection s))))
  = pipelineCalls (effects (session_run s)) /\
  importedVariablesCache (session_run (session (main selection s)))
  = importedVariablesCache (session_run s) /\
  cachedWebVariablesMap (session (main selection s)) = Some [].
Proof.
  intros Hne Hempty. unfold main.
  rewrite flattened_not_empty by assumption.
  destruct (getWebLibraryData_frame s) as [Hc [He Hi]].
  destruct (getWebLibraryData s) as [webVariablesMap s1].
  cbn [fst snd] in *. subst webVariablesMap.
  cbn [length Nat.eqb processed notices session]. auto.
Qed.


End OrchestrationFacts.

(* ===================================================================== *)
(** ** src/code.ts: the first version                                     *)
(* ===================================================================== *)

Section CodeTsFacts.
Context {figma : Figma} {library : TeamLibrary figma}.
Import CodeTsPlugin.

Lemma rebindSolid_twice (b b' : option string) (paint : Paint) :
  rebindSolid b' (rebindSolid b paint) = rebindSolid b' paint.
Proof.
  unfold rebindSolid.
  destruct (String.eqb (paint_type paint) "SOLID") eqn:E;
    cbn [paint_type paint_data]; now rewrite E.
Qed.

Lemma applied_is_rebound (imported : Var) (b : option string) ps :
  map (fun paint =>
         if String.eqb (paint_type paint) "SOLID"
         then setBoundVariableForPaint paint imported else paint)
      (map (rebindSolid b) ps)
  = map (rebindSolid (Some (var_id imported))) ps.
Proof.
  rewrite map_map. apply map_ext. intros paint.
  rewrite <- (rebindSolid_twice b (Some (var_id imported)) paint).
  reflexivity.
Qed.

Lemma clearBoundVariables_painted node :
  painted None None node (clearBoundVariables node).
Proof. unfold painted, samePlace. cbn. auto 10. Qed.

Lemma applyImported_painted kind imported bf bs node node' :
  painted bf bs node node' ->
  painted (match kind with
           | FillKind => match fills node with
                         | Some _ => Some (var_id imported)
                         | None => bf
                         end
           | StrokeKind => bf
           end)
          (match kind with
           | FillKind => bs
           | StrokeKind => match strokes node with
                           | Some _ => Some (var_id imported)
                           | None => bs
                           end
           end)
          node (applyImported kind imported node').
Proof.
  intros (Hf & Hs & Hm & Hn & Ht & Hp & Hc).
  unfold painted, samePlace, applyImported.
  destruct kind.
  - destruct (fills node) as [ps|]; cbn [option_map] in Hf |- *; rewrite Hf.
    + cbn [setPaints fills strokes explicitVariableModes node_name node_type
           parent children].
      rewrite applied_is_rebound. auto 10.
    + auto 10.
  - destruct (strokes node) as [ps|]; cbn [option_map] in Hs |- *; rewrite Hs.
    + cbn [setPaints fills strokes explicitVariableModes node_name node_type
           parent children].
      rewrite applied_is_rebound. auto 10.
    + auto 10.
Qed.

(** The cache only grows under the import of the first version. *)
Lemma import_keeps_entries (libVar : LibraryVariable) (r : Run) k v :
  JsMap.get (importedVariablesCache r) k = Some v ->
  JsMap.get (importedVariablesCache
               (snd (CodeTs.getImportedVariable libVar r))) k = Some v.
Proof.
  intros Hk. unfold CodeTs.getImportedVariable.
  destruct (JsMap.get (importedVariablesCache r) (lib_key libVar)) eqn:Hc;
    [exact Hk|].
  rewrite call_run.
  destruct (fst (invoke (importVariableByKey (lib_key libVar)) (host r)));
    cbn [snd importedVariablesCache host effects]; [|exact Hk].
  destruct (String.eqb (lib_key libVar) k) eqn:E.
  - apply String.eqb_eq in E. congruence.
  - apply String.eqb_neq in E. now rewrite JsMapFacts.get_set_other.
Qed.

Lemma import_is_cached (libVar : LibraryVariable) (r r1 : Run) v :
  CodeTs.getImportedVariable libVar r = (Ok v, r1) ->
  JsMap.get (importedVariablesCache r1) (lib_key libVar) = Some v.
Proof.
  unfold CodeTs.getImportedVariable.
  destruct (JsMap.get (importedVariablesCache r) (lib_key libVar)) eqn:Hc.
  - intros [= <- <-]. exact Hc.
  - rewrite call_run.
    destruct (fst (invoke (importVariableByKey (lib_key libVar)) (host r)));
      [|discriminate].
    intros [= <- <-]. cbn [importedVariablesCache].
    apply JsMapFacts.get_set_same.
Qed.

Lemma fromCatalog_later webVariablesMap kind collected libVar r b :
  fromCatalog webVariablesMap kind collected (importedVariablesCache r) b ->
  fromCatalog webVariablesMap kind collected
    (importedVariablesCache (snd (CodeTs.getImportedVariable libVar r))) b.
Proof.
  intros [-> | (name & lv & v & Hin & Hget & Hc & ->)]; [now left|].
  right. exists name, lv, v. repeat split; auto.
  now apply import_keeps_entries.
Qed.

Lemma fromCatalog_more webVariablesMap kind entry collected cache b :
  fromCatalog webVariablesMap kind collected cache b ->
  fromCatalog webVariablesMap kind (entry :: collected) cache b.
Proof.
  intros [-> | (name & lv & v & Hin & Hget & Hc & ->)]; [now left|].
  right. exists name, lv, v. repeat split; auto. now right.
Qed.

Lemma applyWebVariables_painted webVariablesMap node0 collected :
  forall seen node r bf bs,
    painted bf bs node0 node ->
    fromCatalog webVariablesMap FillKind seen (importedVariablesCache r) bf ->
    fromCatalog webVariablesMap StrokeKind seen (importedVariablesCache r) bs ->
    exists bf' bs',
      let out := applyWebVariables webVariablesMap collected node r in
      painted bf' bs' node0 (snd (fst out)) /\
      fromCatalog webVariablesMap FillKind (seen ++ collected)
                  (importedVariablesCache (snd out)) bf' /\
      fromCatalog webVariablesMap StrokeKind (seen ++ collected)
                  (importedVariablesCache (snd out)) bs' /\
      ((forall kind name, In (kind, name) collected ->
                          JsMap.get webVariablesMap name = None) ->
       out = (Ok tt, node, r)).
Proof.
  induction collected as [|[kind name] rest IH];
    intros seen node r bf bs Hp Hf Hs; cbn [applyWebVariables].
  - exists bf, bs. rewrite app_nil_r. cbn [fst snd]. auto.
  - destruct (JsMap.get webVariablesMap name) as [libVar|] eqn:Hget.
    + pose proof (import_is_cached libVar r) as Hcached.
      pose proof (fromCatalog_later webVariablesMap FillKind seen libVar r bf Hf)
        as Hf1.
      pose proof (fromCatalog_later webVariablesMap StrokeKind seen libVar r bs
                    Hs) as Hs1.
      destruct (CodeTs.getImportedVariable libVar r) as [[imported|e] r1].
      * specialize (Hcached r1 imported eq_refl). cbn [snd] in Hf1, Hs1.
        pose proof (applyImported_painted kind imported bf bs node0 node Hp)
          as Hp1.
        assert (Hin : forall k, k = kind ->
                  fromCatalog webVariablesMap k (seen ++ [(kind, name)])
                    (importedVariablesCache r1) (Some (var_id imported))).
        { intros k ->. right. exists name, libVar, imported.
          repeat split; auto. apply in_or_app. right. now left. }
        assert (Hmore : forall k b,
                  fromCatalog webVariablesMap k seen
                              (importedVariablesCache r1) b ->
                  fromCatalog webVariablesMap k (seen ++ [(kind, name)])
                              (importedVariablesCache r1) b).
        { intros k b [-> | (n & lv & v & Hi & Hg & Hc & ->)]; [now left|].
          right. exists n, lv, v. repeat split; auto.
          apply in_or_app. now left. }
        destruct (IH (seen ++ [(kind, name)]) _ r1 _ _ Hp1)
          as (bf' & bs' & H1 & H2 & H3 & _).
        { destruct kind; [destruct (fills node0)|]; auto. }
        { destruct kind; [|destruct (strokes node0)]; auto. }
        rewrite <- app_assoc in H2, H3. cbn [app] in H2, H3.
        exists bf', bs'. cbn zeta in *.
        split; [exact H1|]. split; [exact H2|]. split; [exact H3|].
        intros Hnone. specialize (Hnone kind name (or_introl eq_refl)).
        congruence.
      * exists bf, bs. cbn [fst snd] in *.
        split; [exact Hp|]. split; [|split].
        -- destruct Hf1 as [-> | (n & lv & v & Hi & Hg & Hc & ->)]; [now left|].
           right. exists n, lv, v. repeat split; auto.
           apply in_or_app. now left.
        -- destruct Hs1 as [-> | (n & lv & v & Hi & Hg & Hc & ->)]; [now left|].
           right. exists n, lv, v. repeat split; auto.
           apply in_or_app. now left.
        -- intros Hnone. specialize (Hnone kind name (or_introl eq_refl)).
           congruence.
    + assert (Hmore : forall k b,
                fromCatalog webVariablesMap k seen
                            (importedVariablesCache r) b ->
                fromCatalog webVariablesMap k (seen ++ [(kind, name)])
                            (importedVariablesCache r) b).
      { intros k b [-> | (n & lv & v & Hi & Hg & Hc & ->)]; [now left|].
        right. exists n, lv, v. repeat split; auto.
        apply in_or_app. now left. }
      destruct (IH (seen ++ [(kind, name)]) node r bf bs Hp (Hmore _ _ Hf)
                   (Hmore _ _ Hs)) as (bf' & bs' & H1 & H2 & H3 & H4).
      rewrite <- app_assoc in H2, H3. cbn [app] in H2, H3.
      exists bf', bs'. cbn zeta in *.
      split; [exact H1|]. split; [exact H2|]. split; [exact H3|].
      intros Hnone. apply H4. intros k n Hi. apply (Hnone k n). now right.
Qed.

(** X22: the first version binds a whole slot to one variable.  When the
    variables of a node could be looked up, the node comes out of
    [collectBoundVariables], [clearBoundVariables] and [applyWebVariables]
    with every solid fill bound to one and the same variable (or to none),
    and likewise every solid stroke; that variable is the import of a
    catalog entry named like a variable collected from the same slot.
    Paints that are not solid, the explicit modes, the name, the type, the
    parent and the children are as they were.  When no collected name is in
    the catalog, the node is left with its bindings cleared and no import
    is made. *)
Theorem X22_first_version_binds_a_slot_to_one_variable
    (webVariablesMap : JsMap.t LibraryVariable) (node : SceneNode)
    (r r1 : Run) (collected : list (Kind * string)) :
  collectBoundVariables node r = (Ok collected, r1) ->
  exists bf bs,
    painted bf bs node (snd (fst (processOwn webVariablesMap node r))) /\
    fromCatalog webVariablesMap FillKind collected
      (importedVariablesCache (snd (processOwn webVariablesMap node r))) bf /\
    fromCatalog webVariablesMap StrokeKind collected
      (importedVariablesCache (snd (processOwn webVariablesMap node r))) bs /\
    ((forall kind name, In (kind, name) collected ->
                        JsMap.get webVariablesMap name = None) ->
     processOwn webVariablesMap node r
     = (Ok tt, clearBoundVariables node, r1)).
Proof.
  intros Hcollect. unfold processOwn. rewrite Hcollect.
  destruct (applyWebVariables_painted webVariablesMap node collected []
              (clearBoundVariables node) r1 None None
              (clearBoundVariables_painted node))
    as (bf & bs & H); [now left | now left |].
  exists bf, bs. exact H.
Qed.

(** X23: the catalog of the first version is fetched once, also when the
    fetch fails.  After any call of [getWebLibraryVariables] the catalog is
    cached and the next call returns it without asking the host; since the
    empty map is stored before the first request is made, a call that was
    rejected leaves the empty catalog behind, and the next call returns
    that empty catalog instead of asking again. *)
Theorem X23_rejected_fetch_leaves_an_empty_catalog (s : Session) :
  exists m,
    cachedWebVariablesMap (snd (getWebLibraryVariables s)) = Some m /\
    getWebLibraryVariables (snd (getWebLibraryVariables s))
    = (Ok m, snd (getWebLibraryVariables s)) /\
    match fst (getWebLibraryVariables s) with
    | Ok catalog => m = catalog
    | Err _ => m = [] /\ cachedWebVariablesMap s = None
    end.
Proof.
  remember (getWebLibraryVariables s) as out eqn:Hout.
  unfold getWebLibraryVariables in Hout.
  destruct (cachedWebVariablesMap s) as [cached|] eqn:Hc.
  - subst out. exists cached. cbn [fst snd]. unfold getWebLibraryVariables.
    rewrite Hc. auto.
  - destruct getAvailableLibraryVariableCollectionsAsync as [method|].
    + destruct (call (listLibraries method) (session_run s))
        as [[allLibraries|e] r1].
      * destruct (find _ allLibraries) as [targetLibrary|].
        -- destruct (call (listVariables (library_key targetLibrary)) r1)
             as [[variablesInLibrary|e] r2]; subst out; cbn [fst snd].
           ++ exists (buildCatalog variablesInLibrary). auto.
           ++ exists []. auto.
        -- subst out. exists []. cbn [fst snd]. auto.
      * subst out. exists []. cbn [fst snd]. auto.
    + subst out. exists []. cbn [fst snd]. auto.
Qed.

Lemma processNode_step webVariablesMap node r :
  processNode webVariablesMap node r
  = match processOwn webVariablesMap node r with
    | (Err e, node1, r1) => (Err e, node1, r1)
    | (Ok _, node1, r1) =>
        match children node with
        | None => (Ok tt, node1, r1)
        | Some l =>
            let '(done, l', r2) := processEach webVariablesMap l r1 in
            (done, setChildren node1 l', r2)
        end
    end.
Proof.
  destruct node as [n ty p f s m cs]. cbn [processNode children].
  destruct (processOwn webVariablesMap (mkSceneNode n ty p f s m cs) r)
    as [[[[]|e] node1] r1]; [|reflexivity].
  destruct cs as [l|]; [|reflexivity].
  match goal with
  | |- ?walk = _ =>
      match walk with
      | context [?each l r1] =>
          assert (Heach : forall r0,
                     each l r0 = processEach webVariablesMap l r0)
      end
  end.
  { induction l as [|child rest IH]; intros r0; [reflexivity|].
    simpl. destruct (processNode webVariablesMap child r0)
      as [[[[]|e] child'] r']; [|reflexivity].
    rewrite IH. reflexivity. }
  rewrite Heach. reflexivity.
Qed.

Lemma collectPaints_cache kind paints :
  forall r,
    importedVariablesCache (snd (collectPaints kind paints r))
    = importedVariablesCache r.
Proof.
  induction paints as [|paint rest IH]; intros r; cbn [collectPaints];
    [reflexivity|].
  destruct (boundColorId paint) as [variableId|]; [|apply IH].
  destruct (truthy (Some variableId)); [|apply IH].
  rewrite call_run.
  destruct (fst (invoke (getVariableById variableId) (host r)))
    as [[variable|]|e]; [| |reflexivity].
  - specialize (IH (mkRun (snd (invoke (getVariableById variableId) (host r)))
                          (importedVariablesCache r)
                          (effects r ++ [Attempt (api (getVariableById
                                                         variableId))]))).
    destruct (collectPaints kind rest _) as [[found|e] r2]; exact IH.
  - rewrite IH. reflexivity.
Qed.

Lemma collectBoundVariables_cache node r :
  importedVariablesCache (snd (collectBoundVariables node r))
  = importedVariablesCache r.
Proof.
  unfold collectBoundVariables.
  pose proof (collectPaints_cache FillKind
                (match fills node with Some ps => ps | None => [] end) r)
    as H1.
  destruct (collectPaints FillKind _ r) as [[fromFills|e] r1];
    cbn [snd] in H1; [|exact H1].
  pose proof (collectPaints_cache StrokeKind
                (match strokes node with Some ps => ps | None => [] end) r1)
    as H2.
  destruct (collectPaints StrokeKind _ r1) as [[fromStrokes|e] r2];
    cbn [snd] in H2 |- *; congruence.
Qed.

Lemma samePlace_refl node : samePlace node node.
Proof. unfold samePlace. auto. Qed.

Lemma processOwn_samePlace webVariablesMap node r :
  samePlace node (snd (fst (processOwn webVariablesMap node r))).
Proof.
  unfold processOwn.
  destruct (collectBoundVariables node r) as [[collected|e] r1];
    [|apply samePlace_refl].
  destruct (applyWebVariables_painted webVariablesMap node collected []
              (clearBoundVariables node) r1 None None
              (clearBoundVariables_painted node))
    as (bf & bs & H & _); [now left | now left |].
  apply H.
Qed.

(** With an empty catalog the node is cleared, or the lookup failed and the
    node is as it was; nothing is imported. *)
Lemma processOwn_empty node r :
  importedVariablesCache (snd (processOwn [] node r))
  = importedVariablesCache r /\
  (fst (fst (processOwn [] node r)) = Ok tt ->
   snd (fst (processOwn [] node r)) = clearBoundVariables node).
Proof.
  unfold processOwn.
  pose proof (collectBoundVariables_cache node r) as Hc.
  destruct (collectBoundVariables node r) as [[collected|e] r1];
    cbn [fst snd] in *; [|split; [exact Hc | discriminate]].
  destruct (applyWebVariables_painted [] node collected []
              (clearBoundVariables node) r1 None None
              (clearBoundVariables_painted node))
    as (bf & bs & _ & _ & _ & H); [now left | now left |].
  rewrite H by reflexivity. cbn [fst snd]. auto.
Qed.

Lemma unbound_cleared (paints : option (list Paint)) :
  unbound (option_map (map (rebindSolid None)) paints) = true.
Proof.
  destruct paints as [ps|]; [|reflexivity]. cbn [option_map unbound].
  apply forallb_forall. intros paint Hin.
  apply in_map_iff in Hin. destruct Hin as (p0 & <- & _).
  unfold rebindSolid.
  destruct (String.eqb (paint_type p0) "SOLID") eqn:E;
    cbn [paint_type boundColorId]; rewrite E; reflexivity.
Qed.

Lemma outline_children node :
  outline node
  = (node_name node, node_type node) :: flat_map outline (Tree.childrenOf node).
Proof.
  unfold outline. rewrite ForestFacts.preorder_children. cbn [map].
  f_equal. unfold Forest.preorderForest.
  induction (Tree.childrenOf node) as [|c l IH]; [reflexivity|].
  cbn [flat_map]. rewrite map_app, IH. reflexivity.
Qed.

Lemma strippedTree_children node :
  strippedTree node
  = unbound (fills node) && unbound (strokes node)
    && forallb strippedTree (Tree.childrenOf node).
Proof.
  unfold strippedTree at 1. rewrite ForestFacts.preorder_children.
  cbn [forallb]. f_equal. unfold Forest.preorderForest.
  induction (Tree.childrenOf node) as [|c l IH]; [reflexivity|].
  cbn [flat_map forallb]. rewrite forallb_app, IH. reflexivity.
Qed.

Lemma child_is_smaller c l :
  In c l -> Tree.nodeSize c <= Tree.forestSize l.
Proof.
  induction l as [|x l IH]; [intros []|].
  change (Tree.forestSize (x :: l))
    with (Tree.nodeSize x + Tree.forestSize l).
  intros [<- | Hin]; [lia | specialize (IH Hin); lia].
Qed.

(** What is shown of a walk: the outline is kept whatever happens; with an
    empty catalog nothing is imported and a walk that succeeds leaves no
    solid paint bound. *)
Lemma processEach_walk webVariablesMap layers :
  (forall layer r,
      In layer layers ->
      outline (snd (fst (processNode webVariablesMap layer r)))
      = outline layer /\
      (webVariablesMap = [] ->
       importedVariablesCache (snd (processNode webVariablesMap layer r))
       = importedVariablesCache r /\
       (fst (fst (processNode webVariablesMap layer r)) = Ok tt ->
        strippedTree (snd (fst (processNode webVariablesMap layer r)))
        = true))) ->
  forall r,
    flat_map outline (snd (fst (processEach webVariablesMap layers r)))
    = flat_map outline layers /\
    (webVariablesMap = [] ->
     importedVariablesCache (snd (processEach webVariablesMap layers r))
     = importedVariablesCache r /\
     (fst (fst (processEach webVariablesMap layers r)) = Ok tt ->
      forallb strippedTree (snd (fst (processEach webVariablesMap layers r)))
      = true)).
Proof.
  induction layers as [|layer rest IH]; intros Hnodes r; cbn [processEach].
  - cbn [fst snd flat_map forallb]. auto.
  - destruct (Hnodes layer r (or_introl eq_refl)) as [Ho He].
    destruct (processNode webVariablesMap layer r) as [[[[]|e] layer'] r'];
      cbn [fst snd] in Ho, He.
    + destruct (IH (fun l r0 Hin => Hnodes l r0 (or_intror Hin)) r')
        as [Ho' He'].
      destruct (processEach webVariablesMap rest r') as [[done rest'] r''].
      cbn [fst snd flat_map forallb] in *. split; [congruence|].
      intros Hm. destruct (He Hm) as [Hc Hs], (He' Hm) as [Hc' Hs'].
      split; [congruence|]. intros Hd.
      rewrite (Hs eq_refl), (Hs' Hd). reflexivity.
    + cbn [fst snd flat_map]. split; [congruence|].
      intros Hm. split; [apply (He Hm) | discriminate].
Qed.

Lemma processNode_walk webVariablesMap (n : nat) :
  forall node r,
    Tree.nodeSize node <= n ->
    outline (snd (fst (processNode webVariablesMap node r))) = outline node /\
    (webVariablesMap = [] ->
     importedVariablesCache (snd (processNode webVariablesMap node r))
     = importedVariablesCache r /\
     (fst (fst (processNode webVariablesMap node r)) = Ok tt ->
      strippedTree (snd (fst (processNode webVariablesMap node r))) = true)).
Proof.
  induction n as [|n IH]; intros node r Hn.
  - rewrite Tree.nodeSize_children in Hn. lia.
  - rewrite processNode_step.
    pose proof (processOwn_samePlace webVariablesMap node r)
      as (Hname & Htype & _ & Hchildren).
    pose proof (processOwn_empty node r) as Hempty.
    destruct (processOwn webVariablesMap node r) as [[[[]|e] node1] r1] eqn:Hown;
      cbn [fst snd] in Hname, Htype, Hchildren.
    + rewrite Tree.nodeSize_children in Hn.
      rewrite (outline_children node). unfold Tree.childrenOf in Hn |- *.
      destruct (children node) as [l|] eqn:Hl.
      * destruct (processEach_walk webVariablesMap l
                    (fun c r0 Hin => IH c r0
                       (Nat.le_trans _ _ _ (child_is_smaller c l Hin)
                                     (le_S_n _ _ Hn))) r1)
          as [Ho He].
        destruct (processEach webVariablesMap l r1) as [[done l'] r2].
        cbn [fst snd] in *.
        rewrite outline_children, strippedTree_children.
        unfold Tree.childrenOf.
        cbn [setChildren node_name node_type children fills strokes].
        split; [congruence|].
        intros ->. rewrite Hown in Hempty. cbn [fst snd] in Hempty.
        destruct Hempty as [Hc Hclear], (He eq_refl) as [Hc' Hs'].
        split; [congruence|]. intros Hd.
        rewrite (Hclear eq_refl), (Hs' Hd).
        cbn [clearBoundVariables fills strokes].
        now rewrite !unbound_cleared.
      * cbn [fst snd].
        rewrite outline_children, strippedTree_children.
        unfold Tree.childrenOf. rewrite Hchildren.
        cbn [flat_map forallb]. split; [congruence|].
        intros ->. rewrite Hown in Hempty. cbn [fst snd] in Hempty.
        destruct Hempty as [Hc Hclear]. split; [exact Hc|]. intros _.
        rewrite (Hclear eq_refl). cbn [clearBoundVariables fills strokes].
        now rewrite !unbound_cleared.
    + cbn [fst snd]. rewrite (outline_children node), (outline_children node1).
      unfold Tree.childrenOf. rewrite Hchildren, Hname, Htype.
      split; [reflexivity|].
      intros ->. rewrite Hown in Hempty. cbn [fst snd] in Hempty.
      split; [apply Hempty | discriminate].
Qed.

Lemma processEach_all webVariablesMap layers r :
  flat_map outline (snd (fst (processEach webVariablesMap layers r)))
  = flat_map outline layers /\
  (webVariablesMap = [] ->
   importedVariablesCache (snd (processEach webVariablesMap layers r))
   = importedVariablesCache r /\
   (fst (fst (processEach webVariablesMap layers r)) = Ok tt ->
    forallb strippedTree (snd (fst (processEach webVariablesMap layers r)))
    = true)).
Proof.
  apply processEach_walk. intros layer r0 _.
  apply (processNode_walk webVariablesMap (Tree.nodeSize layer)), le_n.
Qed.

Lemma getWebLibraryVariables_cache (s : Session) :
  importedVariablesCache (session_run (snd (getWebLibraryVariables s)))
  = importedVariablesCache (session_run s).
Proof.
  unfold getWebLibraryVariables.
  destruct (cachedWebVariablesMap s) as [cached|]; [reflexivity|].
  destruct getAvailableLibraryVariableCollectionsAsync as [method|];
    [|reflexivity].
  rewrite call_run.
  destruct (fst (invoke (listLibraries method) (host (session_run s))))
    as [allLibraries|e]; [|reflexivity].
  destruct (find _ allLibraries) as [targetLibrary|]; [|reflexivity].
  rewrite call_run.
  destruct (fst (invoke (listVariables (library_key targetLibrary)) _));
    reflexivity.
Qed.

(** X24: the first version walks the selection without reshaping it, and
    says that it is done only when nothing failed.  Whatever the host
    answers, the layers that the script leaves have, depth first, the names
    and types that the selection had.  A run that succeeds notifies once
    and closes the plugin once; a run in which a call of the host is
    rejected notifies nothing and does not close the plugin. *)
Theorem X24_first_version_walk_keeps_the_outline
    (selection : list SceneNode) (s : Session) :
  flat_map outline (processed (snd (script selection s)))
  = flat_map outline selection /\
  match fst (script selection s) with
  | Ok _ =>
      closes (snd (script selection s)) = 1 /\
      notices (snd (script selection s))
      = [match selection with
         | [] => NoLayersSelected
         | _ :: _ => VariablesReplaced
         end]
  | Err _ =>
      closes (snd (script selection s)) = 0 /\
      notices (snd (script selection s)) = []
  end.
Proof.
  unfold script. destruct selection as [|layer rest]; [cbn; auto|].
  cbn [length Nat.eqb]. unfold processSelection.
  destruct (getWebLibraryVariables s) as [[webVariablesMap|e] s1];
    [|cbn [fst snd processed closes notices]; auto].
  destruct (processEach_all webVariablesMap (layer :: rest) (session_run s1))
    as [Ho _].
  destruct (processEach webVariablesMap (layer :: rest) (session_run s1))
    as [[[[]|e] layers] r]; cbn [fst snd processed closes notices] in *; auto.
Qed.

(** X25: without the library the first version strips every binding.  When
    the catalog comes back empty (the API is missing or there is no library
    named Web) and no lookup is rejected, [processSelection] reports that
    the variables were replaced, and in every selected layer and every
    descendant no solid fill and no solid stroke is bound to a variable any
    more; nothing was imported. *)
Theorem X25_missing_library_strips_every_binding
    (selection : list SceneNode) (s : Session) (report : Report) :
  fst (getWebLibraryVariables s) = Ok [] ->
  processSelection selection s = (Ok tt, report) ->
  notices report = [VariablesReplaced] /\
  forallb strippedTree (processed report) = true /\
  flat_map outline (processed report) = flat_map outline selection /\
  importedVariablesCache (session_run (session report))
  = importedVariablesCache (session_run s).
Proof.
  intros Hempty. unfold processSelection.
  pose proof (getWebLibraryVariables_cache s) as Hcache.
  destruct (getWebLibraryVariables s) as [[webVariablesMap|e] s1];
    cbn [fst snd] in Hempty, Hcache; [|discriminate].
  injection Hempty as ->.
  destruct (processEach_all [] selection (session_run s1)) as [Ho He].
  destruct (He eq_refl) as [Hc Hs].
  destruct (processEach [] selection (session_run s1))
    as [[[[]|e] layers] r]; [|discriminate].
  intros [= <-]. cbn [fst snd notices processed session session_run] in *.
  repeat split; auto. congruence.
Qed.

End CodeTsFacts.

(* ===================================================================== *)
(** ** The further properties on the small hosts                          *)
(* ===================================================================== *)

Section MoreConcreteRuns.
Import RequestQueue RequestQueueFacts Admission CodeTsPlugin.
Local Open Scope string_scope.
Local Open Scope list_scope.

(** Three submissions to a queue of limit 2: the third one waits, behind
    the two that were started. *)
Lemma X4_admission_is_first_in_first_out_witness :
  reachable 2 threeSubmitted /\
  queue threeSubmitted
  = seq (submitted threeSubmitted - length (queue threeSubmitted))
        (length (queue threeSubmitted)) /\
  (forall t u, In t (started threeSubmitted) ->
               In u (queue threeSubmitted) -> t < u).
Proof.
  split; [exact threeSubmitted_reachable|].
  exact (RequestQueueMore.X4_admission_is_first_in_first_out
           2 threeSubmitted threeSubmitted_reachable).
Defined.

(** Two submissions to a queue of limit 1. *)
Lemma X5_every_task_is_at_one_place_witness :
  reachable 1 oneRunningOneWaiting /\
  NoDup (queue oneRunningOneWaiting ++ inFlight oneRunningOneWaiting
         ++ map fst (settled oneRunningOneWaiting)) /\
  (forall t, t < submitted oneRunningOneWaiting <->
             In t (queue oneRunningOneWaiting) \/
             In t (inFlight oneRunningOneWaiting) \/
             terminal oneRunningOneWaiting t) /\
  length (queue oneRunningOneWaiting) + length (inFlight oneRunningOneWaiting)
  + length (settled oneRunningOneWaiting)
  = submitted oneRunningOneWaiting.
Proof.
  split; [exact oneRunningOneWaiting_reachable|].
  exact (RequestQueueMore.X5_every_task_is_at_one_place
           1 oneRunningOneWaiting oneRunningOneWaiting_reachable).
Defined.

Lemma flakyHost_recovers :
  recoversAfter (figma := flakyHost) (getVariableById "VariableID:web")
                (Some webVariable) 2 0 3.
Proof.
  eapply recovers_later with (e := rateLimited) (w1 := 1);
    [reflexivity | reflexivity |].
  eapply recovers_later with (e := rateLimited) (w1 := 2);
    [reflexivity | reflexivity |].
  apply recovers_now. reflexivity.
Qed.

(** The flaky host answers the third call: two delays, 1000 and 2000. *)
Lemma X9_transient_failures_are_waited_out_witness :
  withRetry (figma := flakyHost) (getVariableById "VariableID:web") 3 1000
            (freshRun flakyHost 0)
  = (Ok (Some webVariable),
     mkRun (figma := flakyHost) 3 []
           [Attempt (GetVariableById "VariableID:web");
            ConsoleWarn 1000; Wait 1000;
            Attempt (GetVariableById "VariableID:web");
            ConsoleWarn 2000; Wait 2000;
            Attempt (GetVariableById "VariableID:web")]) /\
  attempts (backoff (GetVariableById "VariableID:web") 2 1000) = 3 /\
  waits (backoff (GetVariableById "VariableID:web") 2 1000) = [1000; 2000]%Z.
Proof.
  assert (Hk : (Z.of_nat 2 <= 3)%Z) by lia.
  exact (X9_transient_failures_are_waited_out (figma := flakyHost) _
           (getVariableById "VariableID:web") (Some webVariable) 2 3 1000
           (freshRun flakyHost 0) 3 flakyHost_recovers Hk).
Defined.

Lemma plainLayer_asks_nothing :
  forall paints, getPaints plainLayer Fills = Some paints ->
                 Forall (fun paint => isBoundSolid paint = false) paints.
Proof. intros paints [= <-]. repeat constructor. Qed.

Lemma X13_unbound_slot_costs_nothing_witness :
  processPaints (figma := calmHost) plainLayer Fills webCatalog
                (Some "VariableCollectionId:web") (freshRun calmHost tt)
  = (Ok tt, plainLayer, freshRun calmHost tt).
Proof.
  exact (X13_unbound_slot_costs_nothing (figma := calmHost) plainLayer Fills
           webCatalog (Some "VariableCollectionId:web") (freshRun calmHost tt)
           plainLayer_asks_nothing).
Defined.

(** The card has two overrides; with no target both are cleared. *)
Lemma X16_without_target_overrides_are_dropped_witness :
  explicitVariableModes card = Some twoModes /\ twoModes <> [] /\
  exists collections r1 node' r' modes',
    promiseAll (map (fetchCollection (figma := calmHost))
                    (JsMap.keys twoModes)) (freshRun calmHost tt)
    = (Ok collections, r1) /\
    reassignVariableModes card None (freshRun calmHost tt)
    = (Ok tt, node', r') /\
    effects r' = effects r1 ++ map ClearMode (resolvedIds collections) /\
    explicitVariableModes node' = Some modes' /\
    (forall c, In (Some c) collections ->
               JsMap.get modes' (coll_id c) = None) /\
    (forall collId modeId,
        JsMap.get modes' collId = Some modeId ->
        JsMap.get twoModes collId = Some modeId).
Proof.
  assert (H1 : explicitVariableModes card = Some twoModes) by reflexivity.
  assert (H2 : twoModes <> []) by discriminate.
  split; [exact H1|]. split; [exact H2|].
  exact (X16_without_target_overrides_are_dropped (figma := calmHost) card
           twoModes (freshRun calmHost tt) H1 H2).
Defined.

(** The API without the listing method: the run stops before the screen is
    touched. *)
Lemma X20_empty_catalog_stops_the_run_witness :
  let s := freshSession oldLibrary tt in
  let report := main (library := oldLibrary) [screen] s in
  fst (getWebLibraryData (library := oldLibrary) s) = [] /\
  processed report = [] /\
  notices report = [NoVariablesInLibrary] /\
  pipelineCalls (effects (session_run (session report)))
  = pipelineCalls (effects (session_run s)) /\
  importedVariablesCache (session_run (session report))
  = importedVariablesCache (session_run s) /\
  cachedWebVariablesMap (session report) = Some [].
Proof.
  intros s report.
  assert (H1 : [screen] <> []) by discriminate.
  assert (H2 : fst (getWebLibraryData (library := oldLibrary) s) = [])
    by reflexivity.
  split; [exact H2|].
  exact (X20_empty_catalog_stops_the_run (figma := calmHost)
           (library := oldLibrary) [screen] s H1 H2).
Defined.


(** The first version on the screen: the fill and the stroke are bound to
    variables of the same name, and both end bound to the imported one. *)
Lemma X22_first_version_binds_a_slot_to_one_variable_witness :
  let r := freshRun calmHost tt in
  let collected := [(FillKind, "color/primary"); (StrokeKind, "color/primary")] in
  let r1 := mkRun (figma := calmHost) tt []
              [Attempt (GetVariableById "VariableID:local");
               Attempt (GetVariableById "VariableID:web")] in
  collectBoundVariables screen r = (Ok collected, r1) /\
  exists bf bs,
    painted bf bs screen (snd (fst (processOwn webCatalog screen r))) /\
    fromCatalog webCatalog FillKind collected
      (importedVariablesCache (snd (processOwn webCatalog screen r))) bf /\
    fromCatalog webCatalog StrokeKind collected
      (importedVariablesCache (snd (processOwn webCatalog screen r))) bs /\
    ((forall kind name, In (kind, name) collected ->
                        JsMap.get webCatalog name = None) ->
     processOwn webCatalog screen r = (Ok tt, clearBoundVariables screen, r1)).
Proof.
  intros r collected r1.
  assert (H : collectBoundVariables screen r = (Ok collected, r1))
    by reflexivity.
  split; [exact H|].
  exact (X22_first_version_binds_a_slot_to_one_variable (figma := calmHost)
           webCatalog screen r r1 collected H).
Defined.

(** The first version with the API that lacks the listing method: the
    screen and the card lose their bindings. *)
Lemma X25_missing_library_strips_every_binding_witness :
  let s := freshSession oldLibrary tt in
  let report := snd (processSelection (library := oldLibrary) [screen] s) in
  fst (getWebLibraryVariables (library := oldLibrary) s) = Ok [] /\
  processSelection (library := oldLibrary) [screen] s = (Ok tt, report) /\
  notices report = [VariablesReplaced] /\
  forallb strippedTree (processed report) = true /\
  flat_map outline (processed report) = flat_map outline [screen] /\
  importedVariablesCache (session_run (session report))
  = importedVariablesCache (session_run s).
Proof.
  intros s report.
  assert (H1 : fst (getWebLibraryVariables (library := oldLibrary) s) = Ok [])
    by reflexivity.
  assert (H2 : processSelection (library := oldLibrary) [screen] s
               = (Ok tt, report)) by reflexivity.
  split; [exact H1|]. split; [exact H2|].
  exact (X25_missing_library_strips_every_binding (figma := calmHost)
           (library := oldLibrary) [screen] s report H1 H2).
Defined.

End MoreConcreteRuns.
